(** * cleanup.py: comment stripping and path headers for web sources

    A shallow embedding of [cleanup.py] and the properties of its
    specification.  Python text ([str]) is a list of code points, the
    file system is a finite map from absolute paths to entries, and every
    function that performs I/O threads a [world] (file system and trace of
    I/O events) through a small state-and-exception monad.

    The first part holds the definitions: text, the fragment of [re] that
    the patterns need, the tables and functions of the script, the codecs
    of the interpreter, and the vocabulary in which runs are described.  The
    second part holds the properties.

    The calls of [pathlib] are described as CPython 3.11 has them: [is_dir]
    and [is_file] raise [PermissionError] where [stat] is refused, and
    [rglob] passes over what it may not list.

    What is printed is kept as a constructor of [message] with its
    arguments, without the colour codes that [colorize] may put around a
    line; standard output is taken to encode every line it is given.  The
    parsing of the command line is left out. *)

From Stdlib Require Import NArith String Ascii List Bool Lia.
From stdpp Require Import base option list gmap strings.

Local Open Scope N_scope.

(** ** Text *)

(** A Python [str] is the list of its code points. *)
Abbreviation str := (list N).

(** The text of a literal of the source. *)
Definition py (s : string) : str := N_of_ascii <$> list_ascii_of_string s.

Definition newline : N := 10.
Definition space : N := 32.

(** [str.isspace] for one character: the code points Python treats as
    white space. *)
Definition isspace (c : N) : bool :=
  ((9 <=? c) && (c <=? 13)) || ((28 <=? c) && (c <=? 32))
  || (c =? 133) || (c =? 160) || (c =? 5760)
  || ((8192 <=? c) && (c <=? 8202))
  || (c =? 8232) || (c =? 8233) || (c =? 8239) || (c =? 8287) || (c =? 12288).

(** [s.lstrip()] *)
Fixpoint lstrip (s : str) : str :=
  match s with
  | c :: s' => if isspace c then lstrip s' else s
  | [] => []
  end.

(** [s.rstrip()] and [s.strip()] *)
Definition rstrip (s : str) : str := reverse (lstrip (reverse s)).
Definition strip (s : str) : str := rstrip (lstrip s).

(** [s.lower()], on the letters A to Z.  The lowered text is only ever
    compared with [".html"], [".css"] and [".js"], and no character outside
    A-Z lowers to one of their letters. *)
Definition lower_char (c : N) : N :=
  if (65 <=? c) && (c <=? 90) then c + 32 else c.
Definition lower (s : str) : str := lower_char <$> s.

(** [s.startswith('.')] *)
Definition startswith_dot (s : str) : bool :=
  match s with
  | c :: _ => c =? 46
  | [] => false
  end.

(** [sep.join(parts)] *)
Fixpoint join (sep : str) (parts : list str) : str :=
  match parts with
  | [] => []
  | [p] => p
  | p :: ps => p ++ sep ++ join sep ps
  end.

(** The text before the first line break: line 1 of a text. *)
Fixpoint first_line (s : str) : str :=
  match s with
  | c :: s' => if c =? newline then [] else c :: first_line s'
  | [] => []
  end.

(** ** Regular expressions

    The fragment of Python's [re] that [COMMENT_REGEX] uses, with the
    backtracking order of the engine: literals, the lazy [.*?], the
    negative look-behind on one character and [$]. *)
Module Re.

Inductive atom :=
| Lit (c : N)          (* a literal character *)
| LazyDotStar          (* .*? *)
| NotBehind (c : N)    (* (?<!c) *)
| Dollar               (* $ *)
| EndOfString.         (* \Z, the anchor that fullmatch adds *)

(** A compiled pattern: its atoms in sequence and the two flags of the
    source, [re.DOTALL] and [re.MULTILINE]. *)
Record pattern := Pattern {
  atoms : list atom;
  dotall : bool;
  multiline : bool
}.

(** [.] matches every character but a line break, and that too under
    [re.DOTALL]. *)
Definition dot_matches (d : bool) (c : N) : bool := d || negb (c =? newline).

(** [$] matches at the end of the text and before a final line break;
    under [re.MULTILINE] before every line break. *)
Definition at_dollar (m : bool) (s : str) : bool :=
  match s with
  | [] => true
  | [c] => c =? newline
  | c :: _ => m && (c =? newline)
  end.

(** [match_atoms d m p prev s]: match the atoms [p] at the start of [s],
    where [prev] is the character before [s] in the whole text.  The result
    is the length of the first match in backtracking order. *)
Fixpoint match_atoms (d m : bool) (p : list atom) {struct p}
  : option N -> str -> option nat :=
  match p with
  | [] => fun _ _ => Some O
  | Lit c :: p' => fun _ s =>
      match s with
      | x :: s' => if x =? c then S <$> match_atoms d m p' (Some x) s' else None
      | [] => None
      end
  | LazyDotStar :: p' =>
      fix lazy (prev : option N) (s : str) {struct s} : option nat :=
        match match_atoms d m p' prev s with
        | Some n => Some n
        | None =>
            match s with
            | x :: s' => if dot_matches d x then S <$> lazy (Some x) s' else None
            | [] => None
            end
        end
  | NotBehind c :: p' => fun prev s =>
      match prev with
      | Some x => if x =? c then None else match_atoms d m p' prev s
      | None => match_atoms d m p' prev s
      end
  | Dollar :: p' => fun prev s =>
      if at_dollar m s then match_atoms d m p' prev s else None
  | EndOfString :: p' => fun prev s =>
      match s with
      | [] => match_atoms d m p' prev s
      | _ :: _ => None
      end
  end.

(** The match of pattern [p] that starts right here, if any. *)
Definition match_at (p : pattern) : option N -> str -> option nat :=
  match_atoms (dotall p) (multiline p) (atoms p).

(** [p.fullmatch(s)]: the whole of [s] matches. *)
Definition fullmatch (p : pattern) (s : str) : bool :=
  bool_decide (is_Some (match_atoms (dotall p) (multiline p)
                          (atoms p ++ [EndOfString]) None s)).

(** [p.search(s)]: some position of [s] starts a match. *)
Fixpoint search_from (p : pattern) (prev : option N) (s : str) : bool :=
  match s with
  | [] => bool_decide (is_Some (match_at p prev []))
  | x :: s' => bool_decide (is_Some (match_at p prev s)) || search_from p (Some x) s'
  end.
Definition search (p : pattern) (s : str) : bool := search_from p None s.

(** The scan of [p.sub('', s)]: matches are looked for from left to right
    and do not overlap.  [skip] counts the characters of the current match
    that are still to be dropped.  An empty match replaces nothing. *)
Fixpoint sub_from (p : pattern) (prev : option N) (skip : nat) (s : str) : str :=
  match s with
  | [] => []
  | x :: s' =>
      match skip with
      | S k => sub_from p (Some x) k s'
      | O =>
          match match_at p prev s with
          | Some (S k) => sub_from p (Some x) k s'
          | _ => x :: sub_from p (Some x) O s'
          end
      end
  end.

(** [p.sub('', s)] *)
Definition sub (p : pattern) (s : str) : str := sub_from p None O s.

(** The same scan, recording for every character of [s] whether a match
    covers it ([true]: the character is dropped). *)
Fixpoint covered_from (p : pattern) (prev : option N) (skip : nat) (s : str)
  : list bool :=
  match s with
  | [] => []
  | x :: s' =>
      match skip with
      | S k => true :: covered_from p (Some x) k s'
      | O =>
          match match_at p prev s with
          | Some (S k) => true :: covered_from p (Some x) k s'
          | _ => false :: covered_from p (Some x) O s'
          end
      end
  end.
Definition covered (p : pattern) (s : str) : list bool := covered_from p None O s.

(** The characters of [s] that no match covers. *)
Fixpoint uncovered (flags : list bool) (s : str) : str :=
  match flags, s with
  | b :: flags', x :: s' => if b then uncovered flags' s' else x :: uncovered flags' s'
  | _, _ => []
  end.

(** The atoms of a literal word. *)
Definition lits (w : str) : list atom := Lit <$> w.

(** [o.*?c] under [re.DOTALL], for two literal words [o] and [c]. *)
Definition delimited (o c : str) : pattern :=
  Pattern (lits o ++ [LazyDotStar] ++ lits c) true false.

(** [w in s] *)
Fixpoint contains (w s : str) : bool :=
  bool_decide (w `prefix_of` s) ||
  match s with
  | [] => false
  | _ :: s' => contains w s'
  end.

(** The character before the position reached after reading [w]. *)
Fixpoint prev_after (prev : option N) (w : str) : option N :=
  match w with
  | [] => prev
  | c :: w' => prev_after (Some c) w'
  end.

(** The atoms have no look-behind. *)
Definition no_lookbehind (p : list atom) : bool :=
  forallb (fun a => match a with NotBehind _ => false | _ => true end) p.

End Re.

(** ** Configuration *)

(** [r'<!--.*?-->'] with [re.DOTALL] *)
Definition html_comment : Re.pattern :=
  Re.Pattern (Re.lits (py "<!--") ++ [Re.LazyDotStar] ++ Re.lits (py "-->")) true false.

(** [r'/\*.*?\*/'] with [re.DOTALL] *)
Definition block_comment : Re.pattern :=
  Re.Pattern (Re.lits (py "/*") ++ [Re.LazyDotStar] ++ Re.lits (py "*/")) true false.

(** [r'(?<!:)//.*?$'] with [re.MULTILINE] *)
Definition line_comment : Re.pattern :=
  Re.Pattern ([Re.NotBehind 58] ++ Re.lits (py "//") ++ [Re.LazyDotStar; Re.Dollar])
             false true.

Definition COMMENT_REGEX : gmap str (list Re.pattern) :=
  <[py ".html" := [html_comment]]>
  (<[py ".css" := [block_comment]]>
  (<[py ".js" := [block_comment; line_comment]]> ∅)).

(** A format string with one [{}]: the text before and after it. *)
Record template := Template { before : str; after : str }.

(** [formatter.format(arg)] *)
Definition format (t : template) (arg : str) : str := before t ++ arg ++ after t.

Definition HEADER_COMMENT_FORMAT : gmap str template :=
  <[py ".html" := Template (py "<!-- ") (py " -->")]>
  (<[py ".css" := Template (py "/* ") (py " */")]>
  (<[py ".js" := Template (py "/* ") (py " */")]> ∅)).

(** [tuple(COMMENT_REGEX.keys())], in the order of the dictionary display. *)
Definition TARGET_EXTENSIONS : list str := [py ".html"; py ".css"; py ".js"].

Definition SKIP_DIRS : gset str :=
  list_to_set [py ".git"; py ".vscode"; py "node_modules"; py "__pycache__";
               py "venv"; py ".venv"; py "dist"; py "build"; py "assets"].

(** ** Pure functions of the script *)

(** [clean_content]: the patterns of the extension, applied in order. *)
Definition clean_content (content : str) (file_extension : str) : str :=
  match COMMENT_REGEX !! file_extension with
  | Some regex_list => foldl (fun cleaned regex => Re.sub regex cleaned) content regex_list
  | None => content
  end.

(** ** Paths *)

(** An absolute path is the list of its components below the file-system
    root; a relative path is the list of its components ([parts]). *)
Abbreviation path := (list str).

(** [p.name]: the last component, or the empty text. *)
Definition name (p : path) : str := default [] (last p).

(** [s.rfind(c)] *)
Fixpoint rfind (c : N) (s : str) : option nat :=
  match s with
  | [] => None
  | x :: s' =>
      match rfind c s' with
      | Some i => Some (S i)
      | None => if x =? c then Some O else None
      end
  end.

(** [p.suffix]: what follows the last dot of the name, with the dot, when
    that dot is neither the first nor the last character. *)
Definition suffix (p : path) : str :=
  let nm := name p in
  match rfind 46 nm with
  | Some i => if (0 <? i)%nat && (i <? length nm - 1)%nat then drop i nm else []
  | None => []
  end.

(** [p.relative_to(root)]: [None] stands for the [ValueError] raised when
    [p] is not below [root]. *)
Fixpoint relative_to (p root : path) : option path :=
  match root, p with
  | [], _ => Some p
  | r :: root', x :: p' => if bool_decide (x = r) then relative_to p' root' else None
  | _ :: _, [] => None
  end.

(** [item] lies strictly below [root]. *)
Definition below (root item : path) : bool :=
  match relative_to item root with
  | Some (_ :: _) => true
  | _ => false
  end.

(** [rel.as_posix()] for a relative path. *)
Definition as_posix (rel : path) : str :=
  match rel with
  | [] => py "."
  | _ => join (py "/") rel
  end.

(** ** The world: file system and I/O trace *)

Inductive encoding := utf_8 | latin_1.

Record file := File {
  bytes : list Byte.byte;
  readable : bool;
  writable : bool
}.

(** A device, as far as reading and writing go: what a read to the end
    gives ([None] when it fails), and whether the device takes what is
    written to it.  It keeps nothing of what it takes.  A read comes to an
    end: a read that waits for ever, as on a FIFO that nobody writes to, is
    not described. *)
Record device := Device {
  input : option (list Byte.byte);
  accepts : bool
}.

(** What the system calls of the script find at a path.  The paths are
    those below which no directory is a link.  A [Link] is another name of
    the entry at [target], as a symbolic link or as a hard link, [target]
    being where the system ends up; a link whose target holds nothing, or
    again a link, is broken.  [Denied] is an entry of a directory that may
    be listed but not searched: its name is seen, and [stat] and [open]
    raise [PermissionError] for it. *)
Inductive entry :=
| Regular (f : file)
| Directory (listable writable : bool)
                                (* may it be listed ([scandir]), may a file be created in it? *)
| Special (d : device)          (* neither a regular file nor a directory *)
| Link (target : path)
| Denied.

(** The lines the script prints. *)
Inductive message :=
| ErrorReading (p : path)                    (* Error reading {file_path}: {e} *)
| CouldNotDecode (p : path)                  (* Error: Could not decode ... *)
| NoHeaderFormat (ext : str)                 (* Warning: No header format ... *)
| RelativePathError (p root : path)          (* Error calculating relative path ... *)
| ErrorWriting (p : path)                    (* Error writing back to ... *)
| SkippingHeader (rel : str)                 (* Skipping header addition for ... *)
| RemovedCommentsAndUpdatedHeader (rel : str)
| UpdatedHeader (rel : str)
| CriticalError (rel : str)                  (* Critical error processing ... *)
| Banner (root : path)                       (* the eight opening lines *)
| Summary (processed changed : nat)          (* the closing lines *)
| ErrorsOccurred (errors : nat)
| DirectoryNotFound (p : path).

Inductive event :=
| Read (p : path) (enc : encoding)                   (* the file is opened and read *)
| Write (p : path) (enc : encoding) (content : str)  (* the file is opened for writing *)
| Stdout (m : message)
| Stderr (m : message).

Record world := World {
  fs : gmap path entry;
  trace : list event
}.

(** The exceptions of the script; all of them are caught by
    [except Exception].  [OSError] stands for its subclasses as well
    ([PermissionError], [FileNotFoundError], [IsADirectoryError]). *)
Inductive exn :=
| UnicodeDecodeError
| UnicodeEncodeError
| OSError
| ValueError.

Inductive outcome (A : Type) :=
| Ret (a : A)
| Raise (e : exn).
Arguments Ret {A} a.
Arguments Raise {A} e.

(** Computations that use the world and may raise. *)
Definition M (A : Type) : Type := world -> outcome A * world.

Definition ret {A} (a : A) : M A := fun w => (Ret a, w).
Definition raise {A} (e : exn) : M A := fun w => (Raise e, w).
Definition bind {A B} (m : M A) (k : A -> M B) : M B := fun w =>
  match m w with
  | (Ret a, w') => k a w'
  | (Raise e, w') => (Raise e, w')
  end.
Definition try_except {A} (m : M A) (handler : exn -> M A) : M A := fun w =>
  match m w with
  | (Ret a, w') => (Ret a, w')
  | (Raise e, w') => handler e w'
  end.
Definition emit (e : event) : M unit := fun w =>
  (Ret tt, World (fs w) (trace w ++ [e])).

Notation "x <- m ;; k" := (bind m (fun x => k))
  (at level 100, m at next level, right associativity).
Notation "m ;;; k" := (bind m (fun _ => k))
  (at level 100, right associativity).

(** Where the system ends up for [p]: [p] itself, or the target when [p]
    is a link.  For a directory this is [p.resolve()]. *)
Definition resolve (m : gmap path entry) (p : path) : path :=
  match m !! p with
  | Some (Link target) => target
  | _ => p
  end.

(** [p.stat()]: what [p] names once a link is followed; [None] when
    nothing is there or the link is broken ([ENOENT], [ELOOP]), [Denied]
    when the call raises [PermissionError]. *)
Definition stat (m : gmap path entry) (p : path) : option entry :=
  match m !! resolve m p with
  | Some (Link _) => None
  | o => o
  end.

(** [p.is_dir()] and [p.is_file()]: the errors that say that nothing is
    there give [False], [PermissionError] is raised again. *)
Definition is_dir (p : path) : M bool := fun w =>
  match stat (fs w) p with
  | Some Denied => (Raise OSError, w)
  | Some (Directory _ _) => (Ret true, w)
  | _ => (Ret false, w)
  end.
Definition is_file (p : path) : M bool := fun w =>
  match stat (fs w) p with
  | Some Denied => (Raise OSError, w)
  | Some (Regular _) => (Ret true, w)
  | _ => (Ret false, w)
  end.

Definition relative_to_M (p root : path) : M path :=
  match relative_to p root with
  | Some rel => ret rel
  | None => raise ValueError
  end.

(** [all but the last] of a tuple of parts: [parts[:-1]]. *)
Definition ancestors (rel : path) : path := removelast rel.

(** The test of line 201 on one ancestor component. *)
Definition skipped_part (part : str) : bool :=
  bool_decide (part ∈ SKIP_DIRS) || startswith_dot part.

Definition encodings_to_try : list encoding := [utf_8; latin_1].

Section Script.

(** The codecs belong to the interpreter.  [decode enc b] is the text
    that [read_text(encoding=enc)] gives for a file holding [b], [None]
    when it raises [UnicodeDecodeError]; [encode enc s] is the bytes that
    [write_text(s, encoding=enc)] stores, [None] when it raises
    [UnicodeEncodeError]. *)
Variable decode : encoding -> list Byte.byte -> option str.
Variable encode : encoding -> str -> option (list Byte.byte).

(** What [file_path.read_text(encoding=enc)] gives on the file system [m]. *)
Definition stored_text (m : gmap path entry) (p : path) (enc : encoding)
  : outcome str :=
  let decoded (b : list Byte.byte) :=
    match decode enc b with
    | Some content => Ret content
    | None => Raise UnicodeDecodeError
    end in
  match stat m p with
  | Some (Regular f) => if readable f then decoded (bytes f) else Raise OSError
  | Some (Special d) =>
      match input d with
      | Some b => decoded b
      | None => Raise OSError
      end
  | _ => Raise OSError
  end.

(** [file_path.read_text(encoding=enc)] *)
Definition read_text (p : path) (enc : encoding) : M str := fun w =>
  (stored_text (fs w) p enc, World (fs w) (trace w ++ [Read p enc])).

(** What [file_path.write_text(content, encoding=enc)] does to the file
    system [m]: the file that [p] names is opened, and so emptied, before
    the text is encoded; a file that is not there is created in its
    directory, where that is allowed. *)
Definition store (m : gmap path entry) (p : path) (content : str) (enc : encoding)
  : outcome unit * gmap path entry :=
  let target := resolve m p in
  let put (f : file) :=
    match encode enc content with
    | Some b => (Ret tt, <[target := Regular (File b (readable f) (writable f))]> m)
    | None =>
        (Raise UnicodeEncodeError,
         <[target := Regular (File [] (readable f) (writable f))]> m)
    end in
  match m !! target with
  | Some (Regular f) => if writable f then put f else (Raise OSError, m)
  | Some (Special d) =>
      if accepts d then
        match encode enc content with
        | Some _ => (Ret tt, m)
        | None => (Raise UnicodeEncodeError, m)
        end
      else (Raise OSError, m)
  | Some _ => (Raise OSError, m)
  | None =>
      match m !! ancestors target with
      | Some (Directory _ true) => put (File [] true true)
      | _ => (Raise OSError, m)
      end
  end.

(** [file_path.write_text(content, encoding=enc)] *)
Definition write_text (p : path) (content : str) (enc : encoding) : M unit := fun w =>
  let (o, m) := store (fs w) p content enc in
  (o, World m (trace w ++ [Write p enc content])).

(** The loop of [read_file_content] over the encodings still to try. *)
Fixpoint try_encodings (file_path : path) (encodings : list encoding)
  : M (option (str * encoding)) :=
  match encodings with
  | [] =>
      emit (Stderr (CouldNotDecode file_path)) ;;;
      ret None
  | enc :: rest =>
      try_except
        (content <- read_text file_path enc ;; ret (Some (content, enc)))
        (fun e =>
           match e with
           | UnicodeDecodeError => try_encodings file_path rest
           | _ => emit (Stderr (ErrorReading file_path)) ;;; ret None
           end)
  end.

Definition read_file_content (file_path : path) : M (option (str * encoding)) :=
  try_encodings file_path encodings_to_try.

(** [create_header].  Only [relative_to] can raise in the body of the
    [try], so the last handler of the source is never entered. *)
Definition create_header (file_path root_dir : path) (file_extension : str)
  : M (option str) :=
  match relative_to file_path root_dir with
  | Some rel =>
      let relative_path := as_posix rel in
      match HEADER_COMMENT_FORMAT !! file_extension with
      | Some formatter => ret (Some (format formatter relative_path))
      | None =>
          emit (Stderr (NoHeaderFormat file_extension)) ;;;
          ret None
      end
  | None =>
      emit (Stderr (RelativePathError file_path root_dir)) ;;;
      match HEADER_COMMENT_FORMAT !! file_extension with
      | Some formatter =>
          ret (Some (format formatter (name file_path ++ py " (relative path error)")))
      | None => ret None
      end
  end.

Definition write_file_content (file_path : path) (content : str) (enc : encoding)
  : M bool :=
  try_except
    (write_text file_path content enc ;;; ret true)
    (fun _ => emit (Stderr (ErrorWriting file_path)) ;;; ret false).

Definition process_file (file_path root_dir : path) : M bool :=
  let file_extension := lower (suffix file_path) in
  if negb (bool_decide (file_extension ∈ TARGET_EXTENSIONS)) then ret false else
  r <- read_file_content file_path ;;
  match r with
  | None => ret false
  | Some (original_content, enc) =>
      let cleaned_content_no_header := clean_content original_content file_extension in
      header_comment <- create_header file_path root_dir file_extension ;;
      final_content <-
        match header_comment with
        | None =>
            rel <- relative_to_M file_path root_dir ;;
            emit (Stderr (SkippingHeader (as_posix rel))) ;;;
            ret cleaned_content_no_header
        | Some header =>
            ret (header ++ [newline] ++ lstrip cleaned_content_no_header)
        end ;;
      if bool_decide (final_content ≠ original_content) then
        written <- write_file_content file_path final_content enc ;;
        if written : bool then
          rel <- relative_to_M file_path root_dir ;;
          emit (Stdout
                  (if bool_decide (strip cleaned_content_no_header ≠ strip original_content)
                   then RemovedCommentsAndUpdatedHeader (as_posix rel)
                   else UpdatedHeader (as_posix rel))) ;;;
          ret true
        else ret false
      else ret false
  end.

Record counts := Counts {
  processed_count : nat;
  changed_count : nat;
  error_count : nat
}.

(** [scandir(dir)] succeeds: [dir] is a directory that may be listed. *)
Definition can_list (m : gmap path entry) (dir : path) : bool :=
  match m !! dir with
  | Some (Directory true _) => true
  | _ => false
  end.

(** The enumeration started in [dir] comes to the entry [rel] below it:
    every directory on the way, [dir] included, is one that may be listed.
    A directory that may not be listed is passed over, with all below it,
    and so is a link to a directory. *)
Fixpoint listed (m : gmap path entry) (dir rel : path) : bool :=
  match rel with
  | [] => false
  | x :: rel' =>
      match rel' with
      | [] => can_list m dir
      | _ :: _ => can_list m dir && listed m (dir ++ [x]) rel'
      end
  end.

(** The entry [item] is one that [root_dir.rglob('*')] yields. *)
Definition yielded (root_dir : path) (m : gmap path entry) (item : path) : bool :=
  match relative_to item root_dir with
  | Some rel => listed m root_dir rel
  | None => false
  end.

(** [root_dir.rglob('*')], for a [root_dir] that is no link ([main] passes
    a resolved path): every entry strictly below the root that the descent
    through the listable directories comes to.  [PermissionError] from the
    [is_dir] of the root is raised; inside the tree it only ends the
    descent there.  The order of the enumeration is that of the map, the
    source relies on none.  The script adds and removes no entry and
    changes no directory, so the enumeration is taken when the loop
    starts. *)
Definition rglob (root_dir : path) : M (list path) := fun w =>
  match stat (fs w) root_dir with
  | Some Denied => (Raise OSError, w)
  | _ => (Ret (List.filter (yielded root_dir (fs w)) (fst <$> map_to_list (fs w))), w)
  end.

(** One turn of the loop of [process_directory]. *)
Definition visit (root_dir item : path) (c : counts) : M counts :=
  d <- is_dir item ;;
  if d : bool then ret c else
  rel <- relative_to_M item root_dir ;;
  let part_of_skipped_dir := existsb skipped_part (ancestors rel) in
  if part_of_skipped_dir then ret c else
  f <- is_file item ;;
  if f && bool_decide (lower (suffix item) ∈ TARGET_EXTENSIONS) then
    let c := Counts (S (processed_count c)) (changed_count c) (error_count c) in
    try_except
      (was_modified <- process_file item root_dir ;;
       ret (if was_modified : bool
            then Counts (processed_count c) (S (changed_count c)) (error_count c)
            else c))
      (fun _ =>
         rel <- relative_to_M item root_dir ;;
         emit (Stderr (CriticalError (as_posix rel))) ;;;
         ret (Counts (processed_count c) (changed_count c) (S (error_count c))))
  else ret c.

Fixpoint visit_all (root_dir : path) (items : list path) (c : counts) : M counts :=
  match items with
  | [] => ret c
  | item :: rest => c' <- visit root_dir item c ;; visit_all root_dir rest c'
  end.

Definition process_directory (root_dir : path) : M counts :=
  emit (Stdout (Banner root_dir)) ;;;
  items <- rglob root_dir ;;
  c <- visit_all root_dir items (Counts 0 0 0) ;;
  emit (Stdout (Summary (processed_count c) (changed_count c))) ;;;
  (if (0 <? error_count c)%nat then emit (Stdout (ErrorsOccurred (error_count c)))
   else ret tt) ;;;
  ret c.




End Script.

(** ** The codecs of the interpreter

    CPython's two codecs, for running the script on concrete files: strict
    UTF-8, and latin-1, which maps every byte to the code point of the same
    value.  Reading translates the line ends [\r\n] and [\r] to [\n];
    writing on a POSIX system stores [\n] as it is. *)
Module Codec.

Definition cont (b : N) : bool := (128 <=? b) && (b <=? 191).

Fixpoint utf8_decode (b : list N) : option str :=
  match b with
  | [] => Some []
  | b0 :: r =>
      if b0 <? 128 then cons b0 <$> utf8_decode r
      else if (194 <=? b0) && (b0 <=? 223) then
        match r with
        | b1 :: r1 =>
            if cont b1
            then cons ((b0 - 192) * 64 + (b1 - 128)) <$> utf8_decode r1
            else None
        | _ => None
        end
      else if (224 <=? b0) && (b0 <=? 239) then
        match r with
        | b1 :: b2 :: r2 =>
            if cont b1 && cont b2
               && (negb (b0 =? 224) || (160 <=? b1))
               && (negb (b0 =? 237) || (b1 <=? 159))
            then cons (((b0 - 224) * 64 + (b1 - 128)) * 64 + (b2 - 128))
                   <$> utf8_decode r2
            else None
        | _ => None
        end
      else if (240 <=? b0) && (b0 <=? 244) then
        match r with
        | b1 :: b2 :: b3 :: r3 =>
            if cont b1 && cont b2 && cont b3
               && (negb (b0 =? 240) || (144 <=? b1))
               && (negb (b0 =? 244) || (b1 <=? 143))
            then cons ((((b0 - 240) * 64 + (b1 - 128)) * 64 + (b2 - 128)) * 64
                       + (b3 - 128))
                   <$> utf8_decode r3
            else None
        | _ => None
        end
      else None
  end.

Definition utf8_encode_char (c : N) : option (list N) :=
  if c <? 128 then Some [c]
  else if c <? 2048 then Some [192 + c / 64; 128 + c mod 64]
  else if c <? 65536 then
    if (55296 <=? c) && (c <=? 57343) then None
    else Some [224 + c / 4096; 128 + (c / 64) mod 64; 128 + c mod 64]
  else if c <? 1114112 then
    Some [240 + c / 262144; 128 + (c / 4096) mod 64; 128 + (c / 64) mod 64;
          128 + c mod 64]
  else None.

Fixpoint universal_newlines (s : str) : str :=
  match s with
  | [] => []
  | c :: s' =>
      if c =? 13 then
        newline :: match s' with
                   | c' :: s'' =>
                       if c' =? 10 then universal_newlines s''
                       else universal_newlines s'
                   | [] => []
                   end
      else c :: universal_newlines s'
  end.

Definition to_bytes (l : list N) : option (list Byte.byte) := mapM Byte.of_N l.

Definition decode (enc : encoding) (b : list Byte.byte) : option str :=
  universal_newlines <$>
    match enc with
    | utf_8 => utf8_decode (Byte.to_N <$> b)
    | latin_1 => Some (Byte.to_N <$> b)
    end.

Definition encode (enc : encoding) (s : str) : option (list Byte.byte) :=
  match enc with
  | utf_8 => l ← mapM utf8_encode_char s; to_bytes (concat l)
  | latin_1 => to_bytes s
  end.

End Codec.

(** The script under CPython's codecs. *)
Definition run_process_file := process_file Codec.decode Codec.encode.
Definition run_process_directory := process_directory Codec.decode Codec.encode.

(** ** Runs of the script *)

(** What an entry is, whatever it holds. *)
Inductive kind :=
| Absent
| IsRegular
| IsDirectory (listable writable : bool)
| IsSpecial (d : device)
| IsLink (target : path)
| IsDenied.

Definition kind_of (o : option entry) : kind :=
  match o with
  | None => Absent
  | Some (Regular _) => IsRegular
  | Some (Directory listable writable) => IsDirectory listable writable
  | Some (Special d) => IsSpecial d
  | Some (Link target) => IsLink target
  | Some Denied => IsDenied
  end.

(** Two file systems with the same entries of the same kinds: they differ
    at most in what regular files hold. *)
Definition same_shape (m m' : gmap path entry) : Prop :=
  forall p, kind_of (m' !! p) = kind_of (m !! p).

(** The event is the first read that [process_file] makes of [item]. *)
Definition is_first_read (item : path) (e : event) : bool :=
  match e with
  | Read p utf_8 => bool_decide (p = item)
  | _ => false
  end.

(** The event reads [item] or opens it for writing. *)
Definition touches (item : path) (e : event) : bool :=
  match e with
  | Read p _ | Write p _ _ => bool_decide (p = item)
  | _ => false
  end.

(** How many times a trace hands [item] to the transform. *)
Definition times_processed (item : path) (evs : list event) : nat :=
  length (List.filter (is_first_read item) evs).

(** The tests of the loop of [process_directory], on an entry of the
    enumeration: not a directory, no skipped ancestor, a regular file (or a
    link to one), a target extension. *)
Definition chosen (root_dir : path) (m : gmap path entry) (item : path) : bool :=
  match relative_to item root_dir with
  | Some rel =>
      below root_dir item
      && negb (existsb skipped_part (ancestors rel))
      && match stat m item with Some (Regular _) => true | _ => false end
      && bool_decide (lower (suffix item) ∈ TARGET_EXTENSIONS)
  | None => false
  end.

(** [stat] raises for the entry. *)
Definition denied (m : gmap path entry) (item : path) : bool :=
  match stat m item with
  | Some Denied => true
  | _ => false
  end.

(** The events a call for [fp] may add behind its first read. *)
Definition own_event (fp : path) (e : event) : Prop :=
  match e with
  | Read p enc => p = fp /\ enc = latin_1
  | Write p _ _ => p = fp
  | _ => True
  end.

(** A small logic for calls that work on one file.

    [safe fp c Q]: started where [fp] names a regular file or a device,
    the computation [c] adds only events of [fp] to the trace, keeps the
    shape of the file system, changes no entry but the one that [fp] names,
    and ends with an outcome in [Q]. *)
Definition file_at (fp : path) (w : world) : Prop :=
  match stat (fs w) fp with
  | Some (Regular _) | Some (Special _) => True
  | _ => False
  end.

Definition safe {A} (fp : path) (c : M A) (Q : outcome A -> Prop) : Prop :=
  forall w, file_at fp w ->
    exists o m evs,
      c w = (o, World m (trace w ++ evs)) /\
      Forall (own_event fp) evs /\
      same_shape (fs w) m /\
      (forall p, p <> resolve (fs w) fp -> m !! p = fs w !! p) /\
      Q o.

Definition returns {A} (o : outcome A) : Prop := exists a, o = Ret a.

(** How often a whole pass of the loop over [items] hands [item] to the
    transform. *)
Definition handed_over (root : path) (m : gmap path entry) (items : list path)
    (item : path) : nat :=
  if bool_decide (item ∈ items) && chosen root m item then 1%nat else O.

(** What the turns of the loop over [items] add to the trace, and what
    they do to the file system [m]: no item is handed over more often than
    in a whole pass, no file is opened but under the path of a chosen item,
    and no entry changes but those that chosen items name. *)
Definition loop_events (root : path) (m : gmap path entry) (items : list path)
    (evs : list event) (m' : gmap path entry) : Prop :=
  (forall item, (times_processed item evs <= handed_over root m items item)%nat) /\
  (forall item e, e ∈ evs -> touches item e = true ->
                  item ∈ items /\ chosen root m item = true) /\
  (forall p, (forall item, item ∈ items -> chosen root m item = true ->
                           resolve m item <> p) ->
             m' !! p = m !! p).

(** What is printed after the loop. *)
Definition closing (c : counts) : list event :=
  if (0 <? error_count c)%nat
  then [Stdout (Summary (processed_count c) (changed_count c));
        Stdout (ErrorsOccurred (error_count c))]
  else [Stdout (Summary (processed_count c) (changed_count c))].

(** The content that [process_file] arrives at. *)
Definition final_content (t : template) (rel : path) (ext original : str) : str :=
  format t (as_posix rel) ++ [newline] ++ lstrip (clean_content original ext).

(** ** Example file systems *)
Module Site.

(** A readable and writable regular file that holds the text [s], for
    texts of code points below 256. *)
Definition stored (s : str) : entry := Regular (File (omap Byte.of_N s) true true).

Definition site : path := [py "site"].

(** A small site: a vendored script, a script and a page with upper-case
    extensions, a script whose name starts with a dot, a text file and a
    style sheet that cannot be read. *)
Definition w_site : world := World
  (<[ site := Directory true true ]>
   (<[ site ++ [py "node_modules"] := Directory true true ]>
   (<[ site ++ [py "node_modules"; py "lib.js"] := stored (py "var x = 1; // vendored") ]>
   (<[ site ++ [py "src"] := Directory true true ]>
   (<[ site ++ [py "src"; py "app.Js"] := stored (py "foo(); // comment") ]>
   (<[ site ++ [py "PAGE.HTML"] := stored (py "<p>hi</p><!-- note -->") ]>
   (<[ site ++ [py ".hidden.js"] := stored (py "bar();") ]>
   (<[ site ++ [py "notes.txt"] := stored (py "// not a target") ]>
   (<[ site ++ [py "locked.css"]
       := Regular (File (omap Byte.of_N (py "a { }")) false true) ]> ∅)))))))))
  [].

(** A script that already has its header, directly followed by its code. *)
Definition w_clean : world := World
  (<[ site := Directory true true ]>
   (<[ site ++ [py "a.js"]
       := stored (py "/* a.js */" ++ [newline] ++ py "foo();" ++ [newline]) ]> ∅))
  [].

(** The same script with an empty line between header and code. *)
Definition w_blank : world := World
  (<[ site := Directory true true ]>
   (<[ site ++ [py "a.js"]
       := stored (py "/* a.js */" ++ [newline; newline] ++ py "foo();" ++ [newline]) ]> ∅))
  [].

(** A script whose name has a line break in it. *)
Definition w_newline : world := World
  (<[ site := Directory true true ]>
   (<[ site ++ [py "a" ++ [newline] ++ py "b.js"] := stored (py "x") ]> ∅))
  [].

(** A script that holds the single byte 0xFF. *)
Definition w_bad : world := World
  (<[ site := Directory true true ]>
   (<[ site ++ [py "bad.js"] := Regular (File [Byte.xff] true true) ]> ∅))
  [].

End Site.

(** ** The rest of the script *)

(** The colour table of [colorize]. *)
Definition colors : gmap str str :=
  <[py "red" := [27] ++ py "[91m"]>
  (<[py "yellow" := [27] ++ py "[93m"]>
  (<[py "green" := [27] ++ py "[92m"]>
  (<[py "blue" := [27] ++ py "[94m"]>
  (<[py "default" := [27] ++ py "[0m"]>
  (<[py "end" := [27] ++ py "[0m"]> ∅))))).

(** The keys of the table. *)
Definition color_names : list str :=
  [py "red"; py "yellow"; py "green"; py "blue"; py "default"; py "end"].

(** What [colorize] asks its surroundings: [sys.stdout.isatty()],
    [os.name == 'nt'] and ['TERM' in os.environ]. *)
Record terminal := Terminal {
  isatty : bool;
  os_name_nt : bool;
  has_TERM : bool
}.

(** [colorize].  [colors["default"]] and [colors["end"]] are keys of the
    table, so the two subscripts cannot fail.  The keys are ASCII, so that
    [lower] on A-Z finds the same entry as Python's [lower]. *)
Definition colorize (tm : terminal) (text color : str) : str :=
  let start_code :=
    match colors !! lower color with
    | Some code => code
    | None => default [] (colors !! py "default")
    end in
  let end_code := default [] (colors !! py "end") in
  if negb (isatty tm) || (os_name_nt tm && negb (has_TERM tm)) then text
  else start_code ++ text ++ end_code.

(** The number of line breaks of a text. *)
Definition line_breaks (s : str) : nat := length (List.filter (N.eqb newline) s).

(** The event opens no file but [fp]. *)
Definition only_at (fp : path) (e : event) : Prop :=
  match e with
  | Read p _ | Write p _ _ => p = fp
  | _ => True
  end.

(** [frames fp c]: whatever the start and the outcome, the computation [c]
    changes no entry of the file system but the one that [fp] names, leaves
    [fp] naming it, and opens no file under another path. *)
Definition frames {A} (fp : path) (c : M A) : Prop :=
  forall w o w', c w = (o, w') ->
    (forall p, p <> resolve (fs w) fp -> fs w' !! p = fs w !! p) /\
    resolve (fs w') fp = resolve (fs w) fp /\
    exists evs, trace w' = trace w ++ evs /\ Forall (only_at fp) evs.

(** The file system after the file at [fp] was replaced, or left. *)
Definition put (fp : path) (upd : option file) (m : gmap path entry)
  : gmap path entry :=
  match upd with
  | Some f => <[fp := Regular f]> m
  | None => m
  end.

(** The entries of [items] can be visited in any order: none comes twice,
    all lie below the root, [stat] raises for none, and no two chosen ones
    are names of the same file. *)
Definition orderly (root : path) (m : gmap path entry) (items : list path) : Prop :=
  NoDup items /\
  (forall item, item ∈ items -> below root item = true /\ denied m item = false) /\
  (forall x y, x ∈ items -> y ∈ items ->
               chosen root m x = true -> chosen root m y = true ->
               resolve m x = resolve m y -> x = y).

(** Counters with [n] more files scanned and [k] more changed. *)
Definition bump (n k : nat) (c : counts) : counts :=
  Counts (n + processed_count c) (k + changed_count c) (error_count c).

(** ** More example trees *)
Module Samples.
Import Site.

(** A script that may be read but not written. *)
Definition w_read_only : world := World
  (<[ site := Directory true true ]>
   (<[ site ++ [py "a.js"]
       := Regular (File (omap Byte.of_N (py "foo(); // note")) true false) ]> ∅))
  [].

(** A script that was moved into [lib] with the header of its old place. *)
Definition w_moved : world := World
  (<[ site := Directory true true ]>
   (<[ site ++ [py "lib"] := Directory true true ]>
   (<[ site ++ [py "lib"; py "a.js"]
       := stored (py "/* a.js */" ++ [newline] ++ py "foo();" ++ [newline]) ]> ∅)))
  [].

(** A script in latin-1 (the byte 0xE9) whose name starts with U+0101, a
    letter that latin-1 does not have. *)
Definition w_latin : world := World
  (<[ site := Directory true true ]>
   (<[ site ++ [257%N :: py ".js"] := Regular (File [Byte.xe9] true true) ]> ∅))
  [].

(** Two scripts side by side. *)
Definition w_pair : world := World
  (<[ site := Directory true true ]>
   (<[ site ++ [py "a.js"] := stored (py "a(); // one") ]>
   (<[ site ++ [py "b.js"] := stored (py "b();") ]> ∅)))
  [].



(** A link below the root to a text file outside of it. *)
Definition w_link : world := World
  (<[ [py "outside.txt"] := stored (py "out") ]>
   (<[ site := Directory true true ]>
   (<[ site ++ [py "link.js"] := Link [py "outside.txt"] ]> ∅)))
  [].

(** One script under two names. *)
Definition w_alias : world := World
  (<[ site := Directory true true ]>
   (<[ site ++ [py "a.js"] := stored (py "x();") ]>
   (<[ site ++ [py "b.js"] := Link (site ++ [py "a.js"]) ]> ∅)))
  [].

(** The device [/dev/null] under the name of a script. *)
Definition w_null : world := World
  (<[ site := Directory true true ]>
   (<[ site ++ [py "null.js"] := Special (Device (Some []) true) ]> ∅))
  [].

(** A tree without any file of a target extension. *)
Definition w_plain : world := World
  (<[ site := Directory true true ]>
   (<[ site ++ [py "notes.txt"] := stored (py "// not a target") ]>
   (<[ site ++ [py ".git"] := Directory true true ]>
   (<[ site ++ [py ".git"; py "hook.js"] := stored (py "x(); // kept") ]> ∅))))
  [].

End Samples.

(** * Properties *)

(** ** The matcher *)
Module ReFacts.
Import Re.

Lemma prev_after_app prev a b :
  prev_after prev (a ++ b) = prev_after (prev_after prev a) b.
Proof. revert prev. induction a as [|x a IH]; intros prev; simpl; auto. Qed.

Lemma match_lazy_eq d m p prev s :
  match_atoms d m (LazyDotStar :: p) prev s =
  match match_atoms d m p prev s with
  | Some n => Some n
  | None =>
      match s with
      | x :: s' =>
          if dot_matches d x
          then S <$> match_atoms d m (LazyDotStar :: p) (Some x) s'
          else None
      | [] => None
      end
  end.
Proof. destruct s; reflexivity. Qed.

Lemma match_lits_app d m w p prev s :
  match_atoms d m (lits w ++ p) prev (w ++ s) =
  (fun n => (length w + n)%nat) <$> match_atoms d m p (prev_after prev w) s.
Proof.
  revert prev. induction w as [|c w IH]; intros prev.
  - simpl. destruct (match_atoms d m p prev s); reflexivity.
  - cbn [lits fmap list_fmap app match_atoms prev_after]. rewrite N.eqb_refl.
    fold (lits w). rewrite IH.
    destruct (match_atoms d m p (prev_after (Some c) w) s); reflexivity.
Qed.

Lemma match_lits_inv d m w p prev s n :
  match_atoms d m (lits w ++ p) prev s = Some n ->
  exists s' k, s = w ++ s' /\
               match_atoms d m p (prev_after prev w) s' = Some k /\
               n = (length w + k)%nat.
Proof.
  revert prev s n. induction w as [|c w IH]; intros prev s n H.
  - exists s, n. auto.
  - cbn [lits fmap list_fmap app match_atoms] in H. fold (lits w) in H.
    destruct s as [|x s]; [discriminate|].
    destruct (x =? c) eqn:E; [|discriminate].
    apply N.eqb_eq in E. subst x.
    destruct (match_atoms d m (lits w ++ p) (Some c) s) as [n'|] eqn:E'; [|discriminate].
    injection H as <-.
    destruct (IH _ _ _ E') as (s' & k & -> & Hk & ->).
    exists s', k. auto.
Qed.

(** A literal word that is not at the start of the text does not match. *)
Lemma match_lits_None d m w p prev s :
  ~ w `prefix_of` s -> match_atoms d m (lits w ++ p) prev s = None.
Proof.
  intros Hn. destruct (match_atoms d m (lits w ++ p) prev s) eqn:E; [|reflexivity].
  destruct (match_lits_inv _ _ _ _ _ _ _ E) as (s' & k & -> & _).
  exfalso. apply Hn. by exists s'.
Qed.

Lemma match_lazy_inv d m p prev s n :
  match_atoms d m (LazyDotStar :: p) prev s = Some n ->
  exists mid s' k, s = mid ++ s' /\
                   match_atoms d m p (prev_after prev mid) s' = Some k /\
                   n = (length mid + k)%nat.
Proof.
  revert prev n. induction s as [|x s IH]; intros prev n H;
    rewrite match_lazy_eq in H.
  - destruct (match_atoms d m p prev []) as [k|] eqn:E; [|discriminate].
    injection H as <-. exists [], [], k. auto.
  - destruct (match_atoms d m p prev (x :: s)) as [k|] eqn:E.
    + injection H as <-. exists [], (x :: s), k. auto.
    + destruct (dot_matches d x); [|discriminate].
      destruct (match_atoms d m (LazyDotStar :: p) (Some x) s) as [n'|] eqn:E';
        [|discriminate].
      injection H as <-.
      destruct (IH _ _ E') as (mid & s' & k & -> & Hk & ->).
      exists (x :: mid), s', k. auto.
Qed.

(** The lazy star finds a match of what follows it whenever there is one
    further on, across any text the dot matches. *)
Lemma match_lazy_complete d m p prev mid s :
  forallb (dot_matches d) mid = true ->
  is_Some (match_atoms d m p (prev_after prev mid) s) ->
  is_Some (match_atoms d m (LazyDotStar :: p) prev (mid ++ s)).
Proof.
  revert prev. induction mid as [|x mid IH]; intros prev Hdot Hs;
    rewrite match_lazy_eq.
  - simpl in *. destruct Hs as [k ->]. eauto.
  - simpl in Hdot. apply andb_true_iff in Hdot as [Hx Hdot].
    destruct (match_atoms d m p prev ((x :: mid) ++ s)); [eauto|].
    cbn [app]. rewrite Hx.
    destruct (IH (Some x) Hdot Hs) as [k ->]. simpl. eauto.
Qed.

(** ... and it stops at the first one. *)
Lemma match_lazy_first d m p prev mid s k :
  forallb (dot_matches d) mid = true ->
  (forall a b, mid = a ++ b -> b <> [] ->
               match_atoms d m p (prev_after prev a) (b ++ s) = None) ->
  match_atoms d m p (prev_after prev mid) s = Some k ->
  match_atoms d m (LazyDotStar :: p) prev (mid ++ s) = Some (length mid + k)%nat.
Proof.
  revert prev. induction mid as [|x mid IH]; intros prev Hdot Hnone Hs;
    rewrite match_lazy_eq.
  - simpl in *. by rewrite Hs.
  - simpl in Hdot. apply andb_true_iff in Hdot as [Hx Hdot].
    pose proof (Hnone [] (x :: mid) eq_refl ltac:(discriminate)) as H0.
    cbn [app prev_after] in *. rewrite H0, Hx, (IH (Some x)); auto.
    intros a b -> Hb. apply (Hnone (x :: a) b); auto.
Qed.

(** Without a look-behind the character before the position is not used. *)
Lemma match_atoms_prev d m p prev prev' s :
  no_lookbehind p = true ->
  match_atoms d m p prev s = match_atoms d m p prev' s.
Proof.
  revert prev prev' s. induction p as [|a p IH]; intros prev prev' s Hp; [reflexivity|].
  simpl in Hp. apply andb_true_iff in Hp as [Ha Hp].
  destruct a; try discriminate.
  - reflexivity.
  - revert prev prev'. induction s as [|x s IHs]; intros prev prev';
      rewrite !match_lazy_eq, (IH prev prev') by assumption; [reflexivity|].
    destruct (match_atoms d m p prev' (x :: s)); reflexivity.
  - simpl. rewrite (IH prev prev') by assumption. reflexivity.
  - simpl. destruct s; auto.
Qed.

(** The scan and the record of what it drops agree. *)
Lemma uncovered_covered p prev skip s :
  uncovered (covered_from p prev skip s) s = sub_from p prev skip s.
Proof.
  revert prev skip. induction s as [|x s IH]; intros prev skip; [reflexivity|].
  simpl. destruct skip as [|k].
  - destruct (match_at p prev (x :: s)) as [[|k]|]; simpl; by rewrite IH.
  - simpl. by rewrite IH.
Qed.

(** Where nothing matches, nothing is dropped. *)
Lemma sub_from_no_match p prev s :
  search_from p prev s = false -> sub_from p prev O s = s.
Proof.
  revert prev. induction s as [|x s IH]; intros prev H; [reflexivity|].
  simpl in H. apply orb_false_iff in H as [H1 H2].
  simpl. destruct (match_at p prev (x :: s)) as [n|] eqn:E.
  - exfalso. apply bool_decide_eq_false in H1. apply H1. eauto.
  - by rewrite IH.
Qed.

(** The characters of a match are dropped and the scan goes on behind it. *)
Lemma sub_from_skip p prev a s :
  sub_from p prev (length a) (a ++ s) = sub_from p (prev_after prev a) O s.
Proof.
  revert prev. induction a as [|x a IH]; intros prev; [reflexivity|].
  simpl. apply IH.
Qed.

Lemma sub_from_match p prev a s :
  a <> [] ->
  match_at p prev (a ++ s) = Some (length a) ->
  sub_from p prev O (a ++ s) = sub_from p (prev_after prev a) O s.
Proof.
  intros Ha H. destruct a as [|x a]; [done|].
  cbn [app sub_from]. cbn [app] in H. rewrite H. simpl. apply sub_from_skip.
Qed.

Lemma sub_from_skip_all p prev k s :
  (length s <= k)%nat -> sub_from p prev k s = [].
Proof.
  revert prev k. induction s as [|x s IH]; intros prev k H; [reflexivity|].
  simpl in *. destruct k as [|k]; [lia|]. apply IH. lia.
Qed.

(** Text without the first character of the pattern is copied. *)
Lemma sub_from_copy p c pre prev rest :
  (forall prev x s, x <> c -> match_at p prev (x :: s) = None) ->
  c ∉ pre ->
  sub_from p prev O (pre ++ rest) = pre ++ sub_from p (prev_after prev pre) O rest.
Proof.
  intros Hp. revert prev. induction pre as [|x pre IH]; intros prev Hc; [reflexivity|].
  apply not_elem_of_cons in Hc as [Hx Hc].
  cbn [app sub_from prev_after]. rewrite Hp by auto. f_equal. by apply IH.
Qed.

(** The scan does not depend on the character before the text when the
    pattern has no look-behind. *)
Lemma sub_from_prev p prev prev' skip s :
  no_lookbehind (atoms p) = true ->
  sub_from p prev skip s = sub_from p prev' skip s.
Proof.
  intros Hp. revert prev prev' skip. induction s as [|x s IH]; intros; [reflexivity|].
  simpl. unfold match_at. rewrite (match_atoms_prev _ _ _ prev prev') by assumption.
  destruct skip; [|apply IH].
  destruct (match_atoms _ _ _ prev' (x :: s)) as [[|k]|]; auto.
Qed.

Lemma search_from_prev p prev prev' s :
  no_lookbehind (atoms p) = true ->
  search_from p prev s = search_from p prev' s.
Proof.
  intros Hp. destruct s as [|x s]; simpl; unfold match_at;
    by rewrite (match_atoms_prev _ _ _ prev prev').
Qed.

End ReFacts.

(** ** Patterns between two delimiters *)
Module Delimited.
Import Re ReFacts.

Lemma contains_false w s a b :
  contains w s = false -> s = a ++ b -> ~ w `prefix_of` b.
Proof.
  revert s. induction a as [|x a IH]; intros s H ->.
  - destruct b; simpl in H; apply orb_false_iff in H as [H _];
      by apply bool_decide_eq_false in H.
  - simpl in H. apply orb_false_iff in H as [_ H]. by apply (IH (a ++ b)).
Qed.

Lemma prefix_app_sep (w u r : str) (sp : N) :
  sp ∉ w -> w `prefix_of` (u ++ sp :: r) -> w `prefix_of` u.
Proof.
  revert w. induction u as [|x u IH]; intros w Hsp Hw.
  - destruct w as [|y w]; [apply prefix_nil|].
    destruct Hw as [k Hk]. simpl in Hk. injection Hk as -> _.
    exfalso. apply Hsp. left.
  - destruct w as [|y w]; [apply prefix_nil|].
    destruct Hw as [k Hk]. simpl in Hk. injection Hk as -> Hk.
    apply prefix_cons, IH.
    + intros Hin. apply Hsp. by right.
    + by exists k.
Qed.

Lemma all_dot_matches mid : forallb (dot_matches true) mid = true.
Proof. induction mid; simpl; auto. Qed.

Lemma no_lookbehind_lits w : no_lookbehind (lits w) = true.
Proof. induction w; simpl; auto. Qed.

Lemma delimited_no_lookbehind o c : no_lookbehind (atoms (delimited o c)) = true.
Proof.
  unfold delimited, no_lookbehind. simpl. rewrite !forallb_app. simpl.
  fold (no_lookbehind (lits o)). fold (no_lookbehind (lits c)).
  by rewrite !no_lookbehind_lits.
Qed.

Lemma match_lits_exact w prev s :
  match_atoms true false (lits w) prev (w ++ s) = Some (length w).
Proof.
  rewrite <- (app_nil_r (lits w)), match_lits_app. simpl. f_equal. lia.
Qed.

(** The pattern matches at the start of every text that opens with [o]
    and has [c] further on. *)
Lemma delimited_match o c mid tail prev :
  exists k, match_at (delimited o c) prev (o ++ mid ++ c ++ tail)
            = Some (length o + k)%nat.
Proof.
  unfold match_at, delimited. cbn [atoms dotall multiline].
  rewrite match_lits_app.
  destruct (match_lazy_complete true false (lits c) (prev_after prev o) mid (c ++ tail))
    as [k Hk].
  - apply all_dot_matches.
  - rewrite match_lits_exact. eauto.
  - cbn [app]. rewrite Hk. simpl. eauto.
Qed.

(** It ends at the first [c]. *)
Lemma delimited_match_first o c mid tail prev :
  (forall a b, mid = a ++ b -> b <> [] -> ~ c `prefix_of` (b ++ c ++ tail)) ->
  match_at (delimited o c) prev (o ++ mid ++ c ++ tail)
  = Some (length (o ++ mid ++ c)).
Proof.
  intros Hfirst. unfold match_at, delimited. cbn [atoms dotall multiline].
  rewrite match_lits_app. cbn [app].
  rewrite (match_lazy_first true false (lits c) _ mid (c ++ tail) (length c)).
  - simpl. rewrite !length_app. f_equal.
  - apply all_dot_matches.
  - intros a b Hab Hb. rewrite <- (app_nil_r (lits c)).
    apply match_lits_None, (Hfirst a b); auto.
  - apply match_lits_exact.
Qed.

(** What the pattern matches in full is [o], any text, [c]. *)
Lemma delimited_fullmatch_inv o c s :
  fullmatch (delimited o c) s = true -> exists mid, s = o ++ mid ++ c.
Proof.
  unfold fullmatch, delimited. cbn [atoms dotall multiline].
  intros H. apply bool_decide_eq_true in H as [n H].
  rewrite <- !app_assoc in H.
  apply match_lits_inv in H as (s1 & k1 & -> & H & _).
  cbn [app] in H.
  apply match_lazy_inv in H as (mid & s2 & k2 & -> & H & _).
  apply match_lits_inv in H as (s3 & k3 & -> & H & _).
  destruct s3; [|discriminate].
  exists mid. by rewrite app_nil_r.
Qed.

End Delimited.

(** ** The comment stripper *)
Module Stripper.
Import Re ReFacts Delimited.

Lemma COMMENT_REGEX_html : COMMENT_REGEX !! py ".html" = Some [html_comment].
Proof. reflexivity. Qed.
Lemma COMMENT_REGEX_css : COMMENT_REGEX !! py ".css" = Some [block_comment].
Proof. reflexivity. Qed.
Lemma COMMENT_REGEX_js : COMMENT_REGEX !! py ".js" = Some [block_comment; line_comment].
Proof. reflexivity. Qed.

Lemma html_comment_delimited : html_comment = delimited (py "<!--") (py "-->").
Proof. reflexivity. Qed.
Lemma block_comment_delimited : block_comment = delimited (py "/*") (py "*/").
Proof. reflexivity. Qed.

Lemma sub_from_cons_None p prev x s :
  match_at p prev (x :: s) = None ->
  sub_from p prev O (x :: s) = x :: sub_from p (Some x) O s.
Proof. intros H. simpl. by rewrite H. Qed.

Lemma match_at_block_comment :
  match_at block_comment
  = match_atoms true false [Lit 47; Lit 42; LazyDotStar; Lit 42; Lit 47].
Proof. reflexivity. Qed.

Lemma match_at_line_comment :
  match_at line_comment
  = match_atoms false true [NotBehind 58; Lit 47; Lit 47; LazyDotStar; Dollar].
Proof. reflexivity. Qed.

(** Both patterns of the script kind start a match on a slash only. *)
Lemma block_comment_needs_slash prev x s :
  x <> 47 -> match_at block_comment prev (x :: s) = None.
Proof.
  intros Hx. apply N.eqb_neq in Hx. rewrite match_at_block_comment.
  cbn [match_atoms]. by rewrite Hx.
Qed.

Lemma line_comment_needs_slash prev x s :
  x <> 47 -> match_at line_comment prev (x :: s) = None.
Proof.
  intros Hx. apply N.eqb_neq in Hx. rewrite match_at_line_comment.
  cbn [match_atoms].
  destruct prev as [c|]; [destruct (c =? 58)|]; by rewrite ?Hx.
Qed.

(** The block comment needs a star behind the slash. *)
Lemma block_comment_needs_star prev x y s :
  y <> 42 -> match_at block_comment prev (x :: y :: s) = None.
Proof.
  intros Hy. apply N.eqb_neq in Hy. rewrite match_at_block_comment.
  cbn [match_atoms].
  destruct (x =? 47); [|reflexivity]. by rewrite Hy.
Qed.

Lemma block_comment_last prev x : match_at block_comment prev [x] = None.
Proof.
  rewrite match_at_block_comment. cbn [match_atoms]. by destruct (x =? 47).
Qed.

Lemma sub_block_no_star prev s :
  42 ∉ s -> sub_from block_comment prev O s = s.
Proof.
  revert prev. induction s as [|x s IH]; intros prev Hs; [reflexivity|].
  apply not_elem_of_cons in Hs as [_ Hs].
  rewrite sub_from_cons_None, IH; auto.
  destruct s as [|y s]; [apply block_comment_last|].
  apply block_comment_needs_star. apply not_elem_of_cons in Hs. by destruct Hs.
Qed.

(** The line comment never starts behind a colon. *)
Lemma line_comment_not_after_colon s : match_at line_comment (Some 58) s = None.
Proof. reflexivity. Qed.

(** [.*?$] runs to the end of a text without line break. *)
Lemma lazy_to_end_of_line prev s :
  newline ∉ s ->
  match_atoms false true [LazyDotStar; Dollar] prev s = Some (length s).
Proof.
  revert prev. induction s as [|x s IH]; intros prev Hs; [reflexivity|].
  apply not_elem_of_cons in Hs as [Hx Hs].
  assert ((x =? newline) = false) as Hx' by (apply N.eqb_neq; congruence).
  clear Hx. rename Hx' into Hx.
  rewrite match_lazy_eq.
  assert (match_atoms false true [Dollar] prev (x :: s) = None) as ->.
  { cbn [match_atoms at_dollar]. destruct s; rewrite Hx; reflexivity. }
  unfold dot_matches. rewrite Hx. cbn [orb negb]. rewrite IH by assumption.
  reflexivity.
Qed.

Lemma match_not_behind d m c p prev s :
  match_atoms d m (NotBehind c :: p) prev s =
  match prev with
  | Some x => if x =? c then None else match_atoms d m p prev s
  | None => match_atoms d m p prev s
  end.
Proof. reflexivity. Qed.

Lemma slashes_then_comment q s :
  newline ∉ s ->
  match_atoms false true [Lit 47; Lit 47; LazyDotStar; Dollar] q (47 :: 47 :: s)
  = Some (S (S (length s))).
Proof.
  intros Hs. pose proof (lazy_to_end_of_line (Some 47) s Hs) as E.
  cbn [match_atoms] in *. rewrite !N.eqb_refl, E. reflexivity.
Qed.

Lemma line_comment_match prev s :
  prev <> Some 58 -> newline ∉ s ->
  match_at line_comment prev (47 :: 47 :: s) = Some (S (S (length s))).
Proof.
  intros Hprev Hs. rewrite match_at_line_comment, match_not_behind.
  destruct prev as [c|]; [|by apply slashes_then_comment].
  destruct (c =? 58) eqn:E; [|by apply slashes_then_comment].
  apply N.eqb_eq in E. congruence.
Qed.

Ltac not_in_literal :=
  let H := fresh in
  intros H; cbv in H;
  repeat (apply elem_of_cons in H as [H|H]; [discriminate H|]);
  by apply elem_of_nil in H.

End Stripper.

Module StripperClaims.
Import Re ReFacts Delimited Stripper.

Lemma sub_from_copy_all p c prev s :
  (forall prev x s, x <> c -> match_at p prev (x :: s) = None) ->
  c ∉ s -> sub_from p prev O s = s.
Proof.
  intros Hp Hc. rewrite <- (app_nil_r s) at 1.
  rewrite (sub_from_copy p c) by assumption. apply app_nil_r.
Qed.

Lemma clean_content_js content :
  clean_content content (py ".js") = sub line_comment (sub block_comment content).
Proof. unfold clean_content. by rewrite COMMENT_REGEX_js. Qed.

Lemma strip_line_comment comment :
  newline ∉ comment -> 42 ∉ comment ->
  clean_content (py "foo(); //" ++ comment) (py ".js") = py "foo(); ".
Proof.
  intros Hnl Hstar. rewrite clean_content_js. unfold sub at 2.
  rewrite sub_block_no_star
    by (apply not_elem_of_app; split; [not_in_literal | assumption]).
  change (py "foo(); //" ++ comment) with (py "foo(); " ++ 47 :: 47 :: comment).
  unfold sub. rewrite (sub_from_copy line_comment 47).
  - change (prev_after None (py "foo(); ")) with (Some 32).
    cbn [sub_from]. rewrite line_comment_match by (congruence || assumption).
    rewrite sub_from_skip_all by (simpl; lia). apply app_nil_r.
  - apply line_comment_needs_slash.
  - not_in_literal.
Qed.

Lemma keep_url pre post :
  47 ∉ pre -> 47 ∉ post ->
  clean_content (pre ++ py "http://example.com" ++ post) (py ".js")
  = pre ++ py "http://example.com" ++ post.
Proof.
  intros Hpre Hpost. rewrite clean_content_js.
  assert (pre ++ py "http://example.com" ++ post
          = (pre ++ py "http:") ++ 47 :: 47 :: (py "example.com" ++ post)) as E.
  { by rewrite <- app_assoc. }
  assert (47 ∉ pre ++ py "http:") as H1.
  { apply not_elem_of_app; split; [assumption | not_in_literal]. }
  assert (47 ∉ py "example.com" ++ post) as H2.
  { apply not_elem_of_app; split; [not_in_literal | assumption]. }
  assert (forall q, prev_after q (pre ++ py "http:") = Some 58) as Hprev.
  { intros q. by rewrite prev_after_app. }
  rewrite E. unfold sub.
  rewrite (sub_from_copy block_comment 47), Hprev;
    [|apply block_comment_needs_slash|assumption].
  rewrite (sub_from_cons_None block_comment (Some 58)) by reflexivity.
  rewrite (sub_from_cons_None block_comment (Some 47)) by reflexivity.
  rewrite (sub_from_copy_all block_comment 47);
    [|apply block_comment_needs_slash|assumption].
  rewrite (sub_from_copy line_comment 47), Hprev;
    [|apply line_comment_needs_slash|assumption].
  rewrite (sub_from_cons_None line_comment (Some 58)) by reflexivity.
  rewrite (sub_from_cons_None line_comment (Some 47)) by reflexivity.
  rewrite (sub_from_copy_all line_comment 47);
    [|apply line_comment_needs_slash|assumption].
  reflexivity.
Qed.

(** C5.  For the script kind, the line [foo(); // comment] (with any
    comment text that has no line break and no star) is stripped to
    [foo(); ], which is [foo();] once trailing white space is removed; a
    line that contains [http://example.com] and no other slash is kept whole;
    and the line-comment pattern has no match that starts right behind a
    colon. *)
Theorem script_line_comment_and_url (comment pre post : str) :
  newline ∉ comment -> 42 ∉ comment -> 47 ∉ pre -> 47 ∉ post ->
  clean_content (py "foo(); //" ++ comment) (py ".js") = py "foo(); " /\
  rstrip (clean_content (py "foo(); //" ++ comment) (py ".js")) = py "foo();" /\
  clean_content (pre ++ py "http://example.com" ++ post) (py ".js")
  = pre ++ py "http://example.com" ++ post /\
  (forall s, match_at line_comment (Some 58) s = None).
Proof.
  intros Hnl Hstar Hpre Hpost. repeat split.
  - by apply strip_line_comment.
  - by rewrite strip_line_comment.
  - by apply keep_url.
Qed.

(** The two lines of the specification: [foo(); // comment] and
    [var u = "http://example.com";]. *)
Lemma script_line_comment_and_url_witness :
  clean_content (py "foo(); // comment") (py ".js") = py "foo(); " /\
  rstrip (clean_content (py "foo(); // comment") (py ".js")) = py "foo();" /\
  clean_content (py "var u = " ++ [34] ++ py "http://example.com" ++ [34] ++ py ";")
                (py ".js")
  = py "var u = " ++ [34] ++ py "http://example.com" ++ [34] ++ py ";".
Proof.
  destruct (script_line_comment_and_url (py " comment") (py "var u = " ++ [34])
              ([34] ++ py ";")) as (H1 & H2 & H3 & _);
    try not_in_literal.
  split; [exact H1 | split; [exact H2 |]].
  rewrite <- app_assoc in H3. exact H3.
Defined.

End StripperClaims.

Module BlockCommentClaims.
Import Re ReFacts Delimited Stripper.

(** A position where the pattern matches whatever the scan has done
    before is always covered: by the match that starts there, or by an
    earlier one that runs over it. *)
Lemma covered_from_start p prev skip pre s :
  (forall q, exists k, match_at p q s = Some (S k)) ->
  s <> [] ->
  covered_from p prev skip (pre ++ s) !! length pre = Some true.
Proof.
  intros Hm Hs. revert prev skip. induction pre as [|x pre IH]; intros prev skip.
  - destruct s as [|x s]; [done|]. simpl. destruct skip; [|reflexivity].
    destruct (Hm prev) as [k ->]. reflexivity.
  - simpl. destruct skip; [|apply IH].
    destruct (match_at p prev (x :: pre ++ s)) as [[|k]|]; apply IH.
Qed.

Lemma delimited_covers o c pre s post prev skip :
  (0 < length o)%nat ->
  fullmatch (delimited o c) s = true ->
  covered_from (delimited o c) prev skip (pre ++ s ++ post) !! length pre = Some true.
Proof.
  intros Ho Hs. apply delimited_fullmatch_inv in Hs as [mid ->].
  apply covered_from_start.
  - intros q. rewrite <- !app_assoc.
    destruct (delimited_match o c mid post q) as [k ->].
    destruct (length o) as [|n]; [lia|]. simpl. eauto.
  - destruct o; simpl in *; [lia | discriminate].
Qed.

(** C6, amended.  For the markup and style kinds, wherever the input
    holds a text that the block-comment pattern matches in full, the scan of
    [clean_content] drops the first character of that text: a match covers
    it.  (What is left on the two sides of a dropped span is not scanned
    again and may itself read as a comment.) *)
Theorem comment_start_is_dropped (ext : str) (p : pattern) (pre c post : str) :
  ext = py ".html" \/ ext = py ".css" ->
  COMMENT_REGEX !! ext = Some [p] ->
  fullmatch p c = true ->
  clean_content (pre ++ c ++ post) ext
  = uncovered (covered p (pre ++ c ++ post)) (pre ++ c ++ post) /\
  covered p (pre ++ c ++ post) !! length pre = Some true.
Proof.
  intros Hext Hp Hc. split.
  - unfold clean_content. rewrite Hp. simpl. symmetry. apply uncovered_covered.
  - destruct Hext as [-> | ->].
    + rewrite COMMENT_REGEX_html in Hp. injection Hp as <-.
      rewrite html_comment_delimited in *.
      apply delimited_covers; [simpl; lia | assumption].
    + rewrite COMMENT_REGEX_css in Hp. injection Hp as <-.
      rewrite block_comment_delimited in *.
      apply delimited_covers; [simpl; lia | assumption].
Qed.

(** In [a /* b */ c] for a style sheet and [<p><!-- x --></p>] for a
    page, the character that opens the comment is dropped. *)
Lemma comment_start_is_dropped_witness :
  covered block_comment (py "a /* b */ c") !! 2%nat = Some true /\
  covered html_comment (py "<p><!-- x --></p>") !! 3%nat = Some true.
Proof.
  split.
  - exact (proj2 (comment_start_is_dropped (py ".css") block_comment
                    (py "a ") (py "/* b */") (py " c")
                    (or_intror eq_refl) eq_refl eq_refl)).
  - exact (proj2 (comment_start_is_dropped (py ".html") html_comment
                    (py "<p>") (py "<!-- x -->") (py "</p>")
                    (or_introl eq_refl) eq_refl eq_refl)).
Defined.

(** C6 as stated fails.  The style sheet [//* a */* b */] holds the
    comment [/* b */]; the scan drops [/* a */], and what is left is that
    very comment.  The same with [<!<!-- x -->-- x -->] for a page. *)
Lemma comment_survives_stripping :
  (contains (py "/* b */") (py "//* a */* b */") = true /\
   fullmatch block_comment (py "/* b */") = true /\
   clean_content (py "//* a */* b */") (py ".css") = py "/* b */") /\
  (contains (py "<!-- x -->") (py "<!<!-- x -->-- x -->") = true /\
   fullmatch html_comment (py "<!-- x -->") = true /\
   clean_content (py "<!<!-- x -->-- x -->") (py ".html") = py "<!-- x -->").
Proof. vm_compute. repeat split. Qed.

End BlockCommentClaims.

(** ** The header builder *)
Module HeaderClaims.

(** C2, amended.  [create_header] returns nothing exactly when the
    extension has no registered header template.  With a template, a path
    below the root gives the template filled with the relative path, and a
    path that is not below the root gives, after an error line, the
    template filled with the file name and the words
    [(relative path error)]. *)
Theorem create_header_result (file_path root_dir : path) (file_extension : str)
    (w : world) :
  (fst (create_header file_path root_dir file_extension w) = Ret None
   <-> HEADER_COMMENT_FORMAT !! file_extension = None) /\
  (forall t rel,
      HEADER_COMMENT_FORMAT !! file_extension = Some t ->
      relative_to file_path root_dir = Some rel ->
      create_header file_path root_dir file_extension w
      = (Ret (Some (format t (as_posix rel))), w)) /\
  (forall t,
      HEADER_COMMENT_FORMAT !! file_extension = Some t ->
      relative_to file_path root_dir = None ->
      create_header file_path root_dir file_extension w
      = (Ret (Some (format t (name file_path ++ py " (relative path error)"))),
         World (fs w) (trace w ++ [Stderr (RelativePathError file_path root_dir)]))).
Proof.
  unfold create_header. repeat split.
  - destruct (relative_to file_path root_dir);
      destruct (HEADER_COMMENT_FORMAT !! file_extension); simpl; congruence.
  - intros ->. by destruct (relative_to file_path root_dir).
  - intros t rel -> ->. reflexivity.
  - intros t -> ->. reflexivity.
Qed.

Lemma create_header_result_witness :
  let w := World ∅ [] in
  create_header [py "r"; py "src"; py "app.js"] [py "r"] (py ".js") w
  = (Ret (Some (py "/* src/app.js */")), w) /\
  create_header [py "elsewhere"; py "app.js"] [py "r"] (py ".js") w
  = (Ret (Some (py "/* app.js (relative path error) */")),
     World ∅ [Stderr (RelativePathError [py "elsewhere"; py "app.js"] [py "r"])]).
Proof.
  intros w.
  destruct (create_header_result [py "r"; py "src"; py "app.js"] [py "r"] (py ".js") w)
    as (_ & H1 & _).
  destruct (create_header_result [py "elsewhere"; py "app.js"] [py "r"] (py ".js") w)
    as (_ & _ & H2).
  split.
  - exact (H1 (Template (py "/* ") (py " */")) [py "src"; py "app.js"] eq_refl eq_refl).
  - exact (H2 (Template (py "/* ") (py " */")) eq_refl eq_refl).
Defined.

(** C2 as stated fails.  The path [elsewhere/app.js] cannot be expressed
    relative to the root [r], and the result is a header all the same. *)
Lemma create_header_fallback_is_not_none :
  relative_to [py "elsewhere"; py "app.js"] [py "r"] = None /\
  fst (create_header [py "elsewhere"; py "app.js"] [py "r"] (py ".js") (World ∅ []))
  = Ret (Some (py "/* app.js (relative path error) */")).
Proof. split; reflexivity. Qed.

End HeaderClaims.

(** ** Runs of the script *)
Module RunFacts.
Section RunFacts.
Variable decode : encoding -> list Byte.byte -> option str.
Variable encode : encoding -> str -> option (list Byte.byte).

Lemma own_event_not_first fp item e : own_event fp e -> is_first_read item e = false.
Proof. destruct e as [p [|]| | |]; simpl; intuition congruence. Qed.

Lemma own_event_touches fp item e :
  own_event fp e -> touches item e = true -> item = fp.
Proof.
  destruct e as [p enc|p enc c| |]; simpl; try discriminate;
    intros H E; apply bool_decide_eq_true in E; intuition congruence.
Qed.

(** *** Links and shapes *)

Lemma resolve_regular (m : gmap path entry) (p : path) (f : file) :
  m !! p = Some (Regular f) -> resolve m p = p.
Proof. intros H. unfold resolve. by rewrite H. Qed.

Lemma stat_regular (m : gmap path entry) (p : path) (f : file) :
  m !! p = Some (Regular f) -> stat m p = Some (Regular f).
Proof. intros H. unfold stat. by rewrite (resolve_regular m p f H), H. Qed.

Lemma stat_lookup (m : gmap path entry) (p : path) (e : entry) :
  stat m p = Some e -> m !! resolve m p = Some e.
Proof. unfold stat. destruct (m !! resolve m p) as [[]|]; congruence. Qed.

(** What [stat] finds is in the map under the path itself, or under the
    target of the link that the path is. *)
Lemma stat_is_Some (m : gmap path entry) (p : path) :
  is_Some (stat m p) -> is_Some (m !! p).
Proof.
  unfold stat, resolve. destruct (m !! p) as [e|] eqn:E; [eauto|].
  rewrite E. by intros [? ?].
Qed.

Lemma same_shape_refl m : same_shape m m.
Proof. by intros p. Qed.

Lemma same_shape_trans m1 m2 m3 :
  same_shape m1 m2 -> same_shape m2 m3 -> same_shape m1 m3.
Proof. intros H1 H2 p. by rewrite H2, H1. Qed.

Lemma same_shape_insert (m : gmap path entry) p f f' :
  m !! p = Some (Regular f) -> same_shape m (<[p := Regular f']> m).
Proof.
  intros H q. destruct (decide (p = q)) as [->|Hne].
  - by rewrite lookup_insert_eq, H.
  - by rewrite lookup_insert_ne.
Qed.

Lemma same_shape_resolve m m' p : same_shape m m' -> resolve m' p = resolve m p.
Proof.
  intros H. specialize (H p). unfold resolve.
  destruct (m !! p) as [[]|], (m' !! p) as [[]|]; simpl in H; congruence.
Qed.

Lemma same_shape_stat m m' p :
  same_shape m m' -> kind_of (stat m' p) = kind_of (stat m p).
Proof.
  intros H. unfold stat. rewrite (same_shape_resolve m m' p H).
  specialize (H (resolve m p)).
  destruct (m !! resolve m p) as [[]|], (m' !! resolve m p) as [[]|];
    simpl in *; congruence.
Qed.

Lemma same_shape_can_list m m' d : same_shape m m' -> can_list m' d = can_list m d.
Proof.
  intros H. specialize (H d). unfold can_list.
  destruct (m !! d) as [[|[] ?| | |]|], (m' !! d) as [[|[] ?| | |]|];
    simpl in H; congruence.
Qed.

Lemma same_shape_listed m m' dir rel :
  same_shape m m' -> listed m' dir rel = listed m dir rel.
Proof.
  intros H. revert dir. induction rel as [|x rel IH]; intros dir; [reflexivity|].
  cbn [listed]. rewrite (same_shape_can_list m m' dir H).
  destruct rel; [reflexivity|]. by rewrite IH.
Qed.

Lemma same_shape_yielded root m m' item :
  same_shape m m' -> yielded root m' item = yielded root m item.
Proof.
  intros H. unfold yielded. destruct (relative_to item root); [|reflexivity].
  by apply same_shape_listed.
Qed.

Lemma same_shape_denied m m' item :
  same_shape m m' -> denied m' item = denied m item.
Proof.
  intros H. unfold denied. pose proof (same_shape_stat m m' item H) as E.
  destruct (stat m item) as [[]|], (stat m' item) as [[]|]; simpl in E; congruence.
Qed.

Lemma chosen_same_shape root m m' item :
  same_shape m m' -> chosen root m' item = chosen root m item.
Proof.
  intros H. unfold chosen. pose proof (same_shape_stat m m' item H) as E.
  destruct (relative_to item root); [|reflexivity]. f_equal. f_equal.
  destruct (stat m item) as [[]|], (stat m' item) as [[]|]; simpl in E; congruence.
Qed.


Lemma file_at_same_shape fp w m t :
  file_at fp w -> same_shape (fs w) m -> file_at fp (World m t).
Proof.
  unfold file_at. cbn [fs]. intros Hf Hm.
  pose proof (same_shape_stat (fs w) m fp Hm) as E.
  destruct (stat (fs w) fp) as [[]|], (stat m fp) as [[]|]; simpl in E;
    try contradiction; congruence.
Qed.

(** *** Reading and writing one file *)

(** [read_file_content] leaves the file system alone, reads the file with
    the first codec, and gives a text only where [fp] names a regular file
    or a device. *)
Lemma read_file_content_run fp w :
  exists r evs,
    read_file_content decode fp w
    = (Ret r, World (fs w) (trace w ++ Read fp utf_8 :: evs)) /\
    Forall (own_event fp) evs /\
    (forall c enc, r = Some (c, enc) -> file_at fp w).
Proof.
  unfold read_file_content, encodings_to_try, try_encodings, try_except, read_text,
    bind, emit, ret. cbn [fs trace].
  assert (forall enc c, stored_text decode (fs w) fp enc = Ret c -> file_at fp w)
    as Hreg.
  { intros enc c. unfold stored_text, file_at.
    destruct (stat (fs w) fp) as [[]|]; try discriminate; done. }
  destruct (stored_text decode (fs w) fp utf_8) as [c|e] eqn:E1.
  - exists (Some (c, utf_8)), []. repeat split; eauto.
  - destruct e;
      [| solve [exists None, [Stderr (ErrorReading fp)];
                cbn [fs trace]; rewrite <- ?app_assoc; repeat split;
                try discriminate; repeat constructor] ..].
    cbn [fs trace].
    destruct (stored_text decode (fs w) fp latin_1) as [c|e] eqn:E2.
    + exists (Some (c, latin_1)), [Read fp latin_1].
      cbn [fs trace]. rewrite <- ?app_assoc. repeat split; eauto.
      repeat constructor.
    + destruct e;
        [ exists None, [Read fp latin_1; Stderr (CouldNotDecode fp)]
        | exists None, [Read fp latin_1; Stderr (ErrorReading fp)] .. ];
        cbn [fs trace]; rewrite <- ?app_assoc; repeat split; try discriminate;
        repeat constructor.
Qed.

Lemma read_file_content_fs fp w o w1 :
  read_file_content decode fp w = (o, w1) -> fs w1 = fs w.
Proof.
  destruct (read_file_content_run fp w) as (r & evs & -> & _).
  intros H. by injection H as _ <-.
Qed.

(** Writing back where [fp] names a regular file or a device opens that
    file and no other, keeps the shape of the file system, and changes no
    entry but the one that [fp] names. *)
Lemma write_file_content_run fp content enc w :
  file_at fp w ->
  exists b m evs,
    write_file_content encode fp content enc w
    = (Ret b, World m (trace w ++ Write fp enc content :: evs)) /\
    Forall (own_event fp) evs /\
    same_shape (fs w) m /\
    (forall p, p <> resolve (fs w) fp -> m !! p = fs w !! p).
Proof.
  unfold file_at, stat. intros Hf.
  unfold write_file_content, try_except, write_text, store, bind, emit, ret.
  cbv zeta.
  destruct (fs w !! resolve (fs w) fp) as [[f|? ?|d| |]|] eqn:E; try contradiction.
  - destruct (writable f).
    + destruct (encode enc content) as [b|].
      * eexists true, _, []. split; [reflexivity|]. split; [constructor|].
        split; [by eapply same_shape_insert|].
        intros p Hp. by apply lookup_insert_ne.
      * eexists false, _, [_]. cbn [fs trace]. rewrite <- app_assoc.
        split; [reflexivity|]. split; [repeat constructor|].
        split; [by eapply same_shape_insert|].
        intros p Hp. by apply lookup_insert_ne.
    + eexists false, _, [_]. cbn [fs trace]. rewrite <- app_assoc.
      split; [reflexivity|]. split; [repeat constructor|].
      split; [apply same_shape_refl|done].
  - destruct (accepts d); [destruct (encode enc content) as [b|]|].
    + eexists true, _, []. split; [reflexivity|]. split; [constructor|].
      split; [apply same_shape_refl|done].
    + eexists false, _, [_]. cbn [fs trace]. rewrite <- app_assoc.
      split; [reflexivity|]. split; [repeat constructor|].
      split; [apply same_shape_refl|done].
    + eexists false, _, [_]. cbn [fs trace]. rewrite <- app_assoc.
      split; [reflexivity|]. split; [repeat constructor|].
      split; [apply same_shape_refl|done].
Qed.

Lemma safe_ret {A} fp (a : A) (Q : outcome A -> Prop) :
  Q (Ret a) -> safe fp (ret a) Q.
Proof.
  intros HQ w _. exists (Ret a), (fs w), []. rewrite app_nil_r.
  destruct w. auto using same_shape_refl.
Qed.

Lemma safe_bind {A B} fp (c : M A) (k : A -> M B) P Q :
  safe fp c P ->
  (forall a, P (Ret a) -> safe fp (k a) Q) ->
  (forall e, P (Raise e) -> Q (Raise e)) ->
  safe fp (bind c k) Q.
Proof.
  intros Hc Hk He w Hw. unfold bind.
  destruct (Hc w Hw) as (o & m & evs & -> & Hevs & Hm & Hfr & HP).
  destruct o as [a|e].
  - destruct (Hk a HP (World m (trace w ++ evs)))
      as (o & m' & evs' & -> & Hevs' & Hm' & Hfr' & HQ).
    { by apply (file_at_same_shape fp w). }
    cbn [fs trace] in *.
    exists o, m', (evs ++ evs'). rewrite app_assoc.
    repeat split; eauto using same_shape_trans; [by apply Forall_app|].
    intros p Hp. rewrite Hfr', Hfr; [reflexivity|exact Hp|].
    by rewrite (same_shape_resolve (fs w) m fp Hm).
  - exists (Raise e), m, evs. repeat split; auto.
Qed.

Lemma safe_emit fp (e : event) (Q : outcome unit -> Prop) :
  own_event fp e -> Q (Ret tt) -> safe fp (emit e) Q.
Proof.
  intros He HQ w _. exists (Ret tt), (fs w), [e].
  repeat split; auto using same_shape_refl.
Qed.

Lemma safe_relative_to_M fp p root rel (Q : outcome path -> Prop) :
  relative_to p root = Some rel -> Q (Ret rel) -> safe fp (relative_to_M p root) Q.
Proof. intros H HQ. unfold relative_to_M. rewrite H. by apply safe_ret. Qed.

Lemma returns_ret {A} (a : A) : returns (Ret a).
Proof. by exists a. Qed.

Lemma returns_raise {A} (e : exn) : ~ returns (@Raise A e).
Proof. intros [a Ha]. discriminate. Qed.

(** Steps that always return. *)
Lemma safe_bind_returns {A B} fp (c : M A) (k : A -> M B) :
  safe fp c returns ->
  (forall a, safe fp (k a) returns) ->
  safe fp (bind c k) returns.
Proof.
  intros Hc Hk. eapply safe_bind; eauto.
  intros e He. by apply returns_raise in He.
Qed.

Lemma safe_emit_message fp (e : event) :
  own_event fp e -> safe fp (emit e) returns.
Proof. intros He. apply safe_emit; auto using returns_ret. Qed.

Lemma safe_create_header fp root rel ext :
  relative_to fp root = Some rel ->
  safe fp (create_header fp root ext) returns.
Proof.
  intros H. unfold create_header. rewrite H.
  destruct (HEADER_COMMENT_FORMAT !! ext).
  - apply safe_ret, returns_ret.
  - apply safe_bind_returns; [by apply safe_emit_message|].
    intros _. apply safe_ret, returns_ret.
Qed.

Lemma safe_write_file_content fp content enc :
  safe fp (write_file_content encode fp content enc) returns.
Proof.
  intros w Hf.
  destruct (write_file_content_run fp content enc w Hf)
    as (b & m & evs & -> & Hevs & Hm & Hfr).
  exists (Ret b), m, (Write fp enc content :: evs).
  repeat split; auto using returns_ret. by constructor.
Qed.

(** A call of [process_file] on a path below the root, with a target
    extension: it returns, it opens no other file, it reads the file once
    with the first codec, it keeps the shape of the file system and changes
    no entry but the one that the path names. *)
Lemma process_file_run fp root rel w :
  relative_to fp root = Some rel ->
  lower (suffix fp) ∈ TARGET_EXTENSIONS ->
  exists b m evs,
    process_file decode encode fp root w
    = (Ret b, World m (trace w ++ Read fp utf_8 :: evs)) /\
    Forall (own_event fp) evs /\
    same_shape (fs w) m /\
    (forall p, p <> resolve (fs w) fp -> m !! p = fs w !! p).
Proof.
  intros Hrel Hext. unfold process_file.
  rewrite (bool_decide_eq_true_2 _ Hext). cbn [negb].
  destruct (read_file_content_run fp w) as (r & evs & E & Hevs & Hreg).
  unfold bind at 1. rewrite E.
  destruct r as [[original enc]|].
  2:{ exists false, (fs w), evs. auto using same_shape_refl. }
  match goal with
  | |- context [bind (create_header ?a ?b ?c) ?k ?w1] =>
      assert (safe fp (bind (create_header a b c) k) returns) as Hsafe
  end.
  { apply safe_bind_returns; [by eapply safe_create_header|].
    intros header. apply safe_bind_returns.
    - destruct header; [apply safe_ret, returns_ret|].
      apply safe_bind_returns;
        [by eapply safe_relative_to_M; [|apply returns_ret]|].
      intros rel'. apply safe_bind_returns; [by apply safe_emit_message|].
      intros _. apply safe_ret, returns_ret.
    - intros final. destruct (bool_decide (final ≠ original));
        [|apply safe_ret, returns_ret].
      apply safe_bind_returns; [apply safe_write_file_content|].
      intros [|]; [|apply safe_ret, returns_ret].
      apply safe_bind_returns;
        [by eapply safe_relative_to_M; [|apply returns_ret]|].
      intros rel'. apply safe_bind_returns; [by apply safe_emit_message|].
      intros _. apply safe_ret, returns_ret. }
  destruct (Hsafe (World (fs w) (trace w ++ Read fp utf_8 :: evs)))
    as (o & m & evs' & -> & Hevs' & Hm & Hfr & [b ->]).
  { by apply (Hreg _ _ eq_refl). }
  exists b, m, (evs ++ evs'). cbn [fs trace] in *. rewrite <- app_assoc.
  repeat split; auto. by apply Forall_app.
Qed.

(** *** The loop *)

Lemma relative_to_app root rel : relative_to (root ++ rel) root = Some rel.
Proof.
  induction root as [|r root IH]; [by destruct rel|].
  simpl. by rewrite bool_decide_eq_true_2.
Qed.

Lemma relative_to_inv p root rel : relative_to p root = Some rel -> p = root ++ rel.
Proof.
  revert p. induction root as [|r root IH]; intros p H.
  - destruct p; simpl in H; by injection H as <-.
  - destruct p as [|x p]; simpl in H; [discriminate|].
    case_bool_decide; [|discriminate]. subst. cbn [app]. f_equal. by apply IH.
Qed.

Lemma below_app root rel : below root (root ++ rel) = bool_decide (rel <> []).
Proof. unfold below. rewrite relative_to_app. by destruct rel. Qed.

Lemma listed_nonempty m dir rel : listed m dir rel = true -> rel <> [].
Proof. by destruct rel. Qed.

Lemma yielded_below root m item : yielded root m item = true -> below root item = true.
Proof.
  unfold yielded, below. destruct (relative_to item root) as [[|x rel]|]; done.
Qed.

Lemma chosen_below root m item : chosen root m item = true -> below root item = true.
Proof.
  unfold chosen. destruct (relative_to item root); [|discriminate].
  intros H. by repeat (apply andb_true_iff in H as [H _]).
Qed.

Lemma chosen_regular root m item :
  chosen root m item = true -> exists f, stat m item = Some (Regular f).
Proof.
  unfold chosen. destruct (relative_to item root); [|discriminate].
  intros H. apply andb_true_iff in H as [H _]. apply andb_true_iff in H as [_ H].
  destruct (stat m item) as [[f| | | |]|]; try discriminate. eauto.
Qed.

Lemma chosen_not_denied root m item : chosen root m item = true -> denied m item = false.
Proof.
  intros H. destruct (chosen_regular _ _ _ H) as [f Hf]. unfold denied. by rewrite Hf.
Qed.

(** A chosen entry is handed to [process_file] and counted. *)
Lemma visit_chosen root item c w :
  chosen root (fs w) item = true ->
  exists b m evs,
    process_file decode encode item root w
    = (Ret b, World m (trace w ++ Read item utf_8 :: evs)) /\
    visit decode encode root item c w
    = (Ret (Counts (S (processed_count c))
                   (if b then S (changed_count c) else changed_count c)
                   (error_count c)),
       World m (trace w ++ Read item utf_8 :: evs)) /\
    Forall (own_event item) evs /\
    same_shape (fs w) m /\
    (forall p, p <> resolve (fs w) item -> m !! p = fs w !! p).
Proof.
  intros Hch. destruct (chosen_regular _ _ _ Hch) as [f Hf]. revert Hch.
  unfold chosen. destruct (relative_to item root) as [rel|] eqn:Hrel; [|discriminate].
  intros H. apply andb_true_iff in H as [H Hext].
  apply andb_true_iff in H as [H Hreg]. apply andb_true_iff in H as [_ Hskip].
  apply negb_true_iff in Hskip. apply bool_decide_eq_true in Hext.
  destruct (process_file_run item root rel w Hrel Hext)
    as (b & m & evs & E & Hevs & Hm & Hfr).
  exists b, m, evs. repeat split; auto.
  unfold visit, bind, is_dir, is_file, try_except, relative_to_M, ret.
  repeat (cbv beta iota; rewrite ?Hf, ?Hrel, ?Hskip).
  cbn [andb]. rewrite (bool_decide_eq_true_2 _ Hext). cbv beta iota. rewrite E.
  by destruct b.
Qed.

(** An entry for which [stat] raises ends the loop: the [is_dir] of line
    188 is outside every [try]. *)
Lemma visit_denied root item c w :
  denied (fs w) item = true ->
  visit decode encode root item c w = (Raise OSError, w).
Proof.
  unfold denied, visit, bind, is_dir. intros H.
  by destruct (stat (fs w) item) as [[]|].
Qed.

(** Any other entry of the enumeration is passed over. *)
Lemma visit_not_chosen root item c w :
  below root item = true ->
  chosen root (fs w) item = false ->
  denied (fs w) item = false ->
  visit decode encode root item c w = (Ret c, w).
Proof.
  intros Hbelow. unfold chosen, denied. rewrite Hbelow. unfold below in Hbelow.
  destruct (relative_to item root) as [rel|] eqn:Hrel; [|discriminate].
  cbn [andb]. intros H Hd.
  unfold visit, bind, is_dir, is_file, relative_to_M, ret.
  destruct (stat (fs w) item) as [[f| | | |]|] eqn:Hf; try discriminate;
    repeat (cbv beta iota; rewrite ?Hf, ?Hrel); try reflexivity;
    destruct (existsb skipped_part (ancestors rel)); try reflexivity;
    cbn [negb andb] in *;
    repeat (cbv beta iota; rewrite ?Hf, ?H, ?andb_false_r); reflexivity.
Qed.

Lemma times_processed_app item evs evs' :
  times_processed item (evs ++ evs')
  = (times_processed item evs + times_processed item evs')%nat.
Proof. unfold times_processed. by rewrite List.filter_app, length_app. Qed.

Lemma times_processed_own fp item evs :
  Forall (own_event fp) evs -> times_processed item evs = O.
Proof.
  unfold times_processed. induction 1 as [|e evs He _ IH]; [reflexivity|].
  simpl. by rewrite (own_event_not_first fp item e He).
Qed.

Lemma handed_over_cons_eq root m i items :
  i ∉ items -> handed_over root m (i :: items) i = if chosen root m i then 1%nat else O.
Proof.
  intros _. unfold handed_over. by rewrite bool_decide_eq_true_2 by left.
Qed.

Lemma handed_over_nin root m i items : i ∉ items -> handed_over root m items i = O.
Proof. intros H. unfold handed_over. by rewrite bool_decide_eq_false_2. Qed.

Lemma handed_over_cons_ne root m i items item :
  i <> item -> handed_over root m (i :: items) item = handed_over root m items item.
Proof.
  intros Hne. unfold handed_over.
  destruct (decide (item ∈ items)) as [Hin|Hnin].
  - rewrite !bool_decide_eq_true_2; auto. by right.
  - rewrite !bool_decide_eq_false_2; auto.
    intros [?|?]%elem_of_cons; congruence.
Qed.

Lemma handed_over_same_shape root m m' items item :
  same_shape m m' -> handed_over root m' items item = handed_over root m items item.
Proof. intros H. unfold handed_over. by rewrite (chosen_same_shape root m m' item H). Qed.

Lemma loop_events_nil root m : loop_events root m [] [] m.
Proof.
  split; [|split].
  - intros item. apply Nat.le_0_l.
  - intros item e He. by apply elem_of_nil in He.
  - done.
Qed.

(** The loop over entries below the root, none twice.  It ends by
    returning when [stat] raises for none of them, and then every chosen
    one was handed over once and counted; it ends with the
    [PermissionError] of the first entry for which [stat] raises. *)
Lemma visit_all_run root items c w :
  NoDup items ->
  (forall item, item ∈ items -> below root item = true) ->
  exists o m evs,
    visit_all decode encode root items c w = (o, World m (trace w ++ evs)) /\
    same_shape (fs w) m /\
    loop_events root (fs w) items evs m /\
    match o with
    | Ret c' =>
        (forall item, item ∈ items -> denied (fs w) item = false) /\
        (forall item,
            times_processed item evs = handed_over root (fs w) items item) /\
        processed_count c'
        = (length (List.filter (chosen root (fs w)) items) + processed_count c)%nat /\
        (changed_count c <= changed_count c'
         <= length (List.filter (chosen root (fs w)) items) + changed_count c)%nat /\
        error_count c' = error_count c
    | Raise e =>
        e = OSError /\ exists item, item ∈ items /\ denied (fs w) item = true
    end.
Proof.
  revert c w. induction items as [|i items IH]; intros c w Hnd Hbelow.
  - exists (Ret c), (fs w), []. rewrite app_nil_r. destruct w as [m t]. cbn [fs trace].
    split; [reflexivity|]. split; [apply same_shape_refl|].
    split; [apply loop_events_nil|]. cbn [List.filter length].
    repeat split; try lia. intros item H. by apply elem_of_nil in H.
  - apply NoDup_cons in Hnd as [Hi Hnd].
    assert (forall item, item ∈ items -> below root item = true) as Hbelow'.
    { intros item Hitem. apply Hbelow. by right. }
    cbn [visit_all]. unfold bind at 1.
    destruct (denied (fs w) i) eqn:Hd.
    { rewrite visit_denied by exact Hd.
      exists (Raise OSError), (fs w), []. rewrite app_nil_r. destruct w as [m t].
      cbn [fs trace] in *.
      split; [reflexivity|]. split; [apply same_shape_refl|]. split.
      - split; [|split].
        + intros item. apply Nat.le_0_l.
        + intros item e He. by apply elem_of_nil in He.
        + done.
      - split; [reflexivity|]. exists i. split; [left|exact Hd]. }
    destruct (chosen root (fs w) i) eqn:Hch.
    + destruct (visit_chosen root i c w Hch)
        as (b & m & evs & _ & -> & Hevs & Hm & Hfr).
      destruct (IH (Counts (S (processed_count c))
                      (if b then S (changed_count c) else changed_count c)
                      (error_count c))
                   (World m (trace w ++ Read i utf_8 :: evs)) Hnd Hbelow')
        as (o & m' & evs' & -> & Hm' & (Hle & Htouch & Hframe) & Ho).
      cbn [fs trace] in *.
      exists o, m', (Read i utf_8 :: evs ++ evs').
      split; [by rewrite <- app_assoc|].
      split; [eauto using same_shape_trans|].
      assert (forall item,
                 times_processed item (Read i utf_8 :: evs ++ evs')
                 = ((if bool_decide (i = item) then 1 else 0)
                    + times_processed item evs')%nat) as Htp.
      { intros item.
        change (Read i utf_8 :: evs ++ evs') with ([Read i utf_8] ++ evs ++ evs').
        rewrite !times_processed_app, (times_processed_own i item evs Hevs).
        unfold times_processed at 1. cbn [List.filter is_first_read].
        by destruct (bool_decide (i = item)). }
      split; [split; [|split]|].
      * intros item. rewrite Htp. specialize (Hle item).
        rewrite (handed_over_same_shape root (fs w) m items item Hm) in Hle.
        destruct (decide (i = item)) as [<-|Hne].
        -- rewrite bool_decide_eq_true_2 by done.
           rewrite (handed_over_nin _ _ _ _ Hi) in Hle.
           rewrite (handed_over_cons_eq _ _ _ _ Hi), Hch. lia.
        -- rewrite bool_decide_eq_false_2 by done.
           by rewrite (handed_over_cons_ne _ _ _ _ _ Hne).
      * intros item e He Ht.
        apply elem_of_cons in He as [->|He].
        { simpl in Ht. apply bool_decide_eq_true in Ht as ->. split; [left|done]. }
        apply elem_of_app in He as [He|He].
        -- rewrite Forall_forall in Hevs.
           rewrite (own_event_touches i item e) by auto.
           split; [left|done].
        -- destruct (Htouch item e He Ht) as [Hin Hc]. split; [by right|].
           by rewrite <- (chosen_same_shape root (fs w) m item Hm).
      * intros p Hp. rewrite Hframe.
        -- apply Hfr. intros ->. by apply (Hp i); [left| |].
        -- intros item Hin Hc.
           rewrite (same_shape_resolve (fs w) m item Hm).
           apply Hp; [by right|].
           by rewrite <- (chosen_same_shape root (fs w) m item Hm).
      * destruct o as [c'|e].
        -- destruct Ho as (Hnd' & Heq & Hp & Hc & He).
           cbn [processed_count changed_count error_count] in *.
           rewrite (List.filter_ext _ (chosen root (fs w))) in Hp, Hc
             by (intros a; by apply chosen_same_shape).
           split; [|split; [|split; [|split]]].
           ++ intros item [->|Hin]%elem_of_cons; [exact Hd|].
              rewrite <- (same_shape_denied (fs w) m item Hm). by apply Hnd'.
           ++ intros item. rewrite Htp, Heq.
              rewrite (handed_over_same_shape root (fs w) m items item Hm).
              destruct (decide (i = item)) as [<-|Hne].
              ** rewrite bool_decide_eq_true_2 by done.
                 rewrite (handed_over_nin _ _ _ _ Hi).
                 by rewrite (handed_over_cons_eq _ _ _ _ Hi), Hch.
              ** rewrite bool_decide_eq_false_2 by done.
                 by rewrite (handed_over_cons_ne _ _ _ _ _ Hne).
           ++ cbn [List.filter]. rewrite Hch. cbn [length]. lia.
           ++ cbn [List.filter]. rewrite Hch. cbn [length]. destruct b; lia.
           ++ exact He.
        -- destruct Ho as (-> & item & Hin & Hden). split; [reflexivity|].
           exists item. split; [by right|].
           by rewrite <- (same_shape_denied (fs w) m item Hm).
    + rewrite visit_not_chosen by (auto; apply Hbelow; left).
      destruct (IH c w Hnd Hbelow')
        as (o & m' & evs' & -> & Hm' & (Hle & Htouch & Hframe) & Ho).
      exists o, m', evs'. split; [reflexivity|]. split; [assumption|].
      assert (forall item,
                 handed_over root (fs w) (i :: items) item
                 = handed_over root (fs w) items item) as Hh.
      { intros item. destruct (decide (i = item)) as [<-|Hne].
        - unfold handed_over. by rewrite Hch, !andb_false_r.
        - by apply handed_over_cons_ne. }
      split; [split; [|split]|].
      * intros item. by rewrite Hh.
      * intros item e He Ht. destruct (Htouch item e He Ht). split; [by right|done].
      * intros p Hp. apply Hframe. intros item Hin Hc. apply Hp; [by right|done].
      * destruct o as [c'|e].
        -- destruct Ho as (Hnd' & Heq & Hp & Hc & He).
           split; [|split; [|split; [|split]]].
           ++ intros item [->|Hin]%elem_of_cons; [exact Hd|]. by apply Hnd'.
           ++ intros item. by rewrite Hh.
           ++ cbn [List.filter]. by rewrite Hch.
           ++ cbn [List.filter]. by rewrite Hch.
           ++ exact He.
        -- destruct Ho as (-> & item & Hin & Hden). split; [reflexivity|].
           exists item. split; [by right|done].
Qed.

(** *** The enumeration *)

Lemma rglob_returns root w :
  denied (fs w) root = false ->
  rglob root w
  = (Ret (List.filter (yielded root (fs w)) (fst <$> map_to_list (fs w))), w).
Proof.
  unfold denied, rglob. by destruct (stat (fs w) root) as [[]|].
Qed.

Lemma rglob_raises root w :
  denied (fs w) root = true -> rglob root w = (Raise OSError, w).
Proof.
  unfold denied, rglob. by destruct (stat (fs w) root) as [[]|].
Qed.

(** The enumeration lists every entry that the descent comes to, each
    once. *)
Lemma rglob_NoDup (root : path) (m : gmap path entry) :
  NoDup (List.filter (yielded root m) (fst <$> map_to_list m)).
Proof.
  apply NoDup_ListNoDup, List.NoDup_filter, NoDup_ListNoDup, NoDup_fst_map_to_list.
Qed.

Lemma rglob_elem_of (root : path) (m : gmap path entry) (item : path) :
  item ∈ List.filter (yielded root m) (fst <$> map_to_list m)
  <-> yielded root m item = true /\ is_Some (m !! item).
Proof.
  rewrite list_elem_of_In, List.filter_In, <- list_elem_of_In, list_elem_of_fmap.
  split.
  - intros [[[p e] [-> Hp]] Hb]. apply elem_of_map_to_list in Hp.
    split; [done|]. by exists e.
  - intros [Hb [e He]]. split; [|done]. exists (item, e).
    split; [done|]. by apply elem_of_map_to_list.
Qed.

Lemma handed_over_rglob (root : path) (m : gmap path entry) (item : path) :
  handed_over root m (List.filter (yielded root m) (fst <$> map_to_list m)) item
  = if yielded root m item && chosen root m item then 1%nat else O.
Proof.
  unfold handed_over.
  destruct (chosen root m item) eqn:Hch; [|by rewrite !andb_false_r].
  rewrite !andb_true_r.
  destruct (yielded root m item) eqn:Hy.
  - rewrite bool_decide_eq_true_2; [reflexivity|].
    apply rglob_elem_of. split; [exact Hy|].
    destruct (chosen_regular _ _ _ Hch) as [f Hf]. apply stat_is_Some. by rewrite Hf.
  - rewrite bool_decide_eq_false_2; [reflexivity|].
    rewrite rglob_elem_of. intros [H _]. congruence.
Qed.

(** *** The whole run *)

Lemma closing_untouched c item e : e ∈ closing c -> touches item e = false.
Proof.
  unfold closing. destruct (0 <? error_count c)%nat; intros He;
    repeat (apply elem_of_cons in He as [->|He]; [reflexivity|]);
    by apply elem_of_nil in He.
Qed.

Lemma closing_not_processed c item : times_processed item (closing c) = O.
Proof. unfold closing. by destruct (0 <? error_count c)%nat. Qed.

(** [process_directory] is its loop between the opening and the closing
    lines. *)
Lemma process_directory_eq root w o m evs :
  denied (fs w) root = false ->
  visit_all decode encode root
    (List.filter (yielded root (fs w)) (fst <$> map_to_list (fs w))) (Counts 0 0 0)
    (World (fs w) (trace w ++ [Stdout (Banner root)]))
  = (o, World m ((trace w ++ [Stdout (Banner root)]) ++ evs)) ->
  process_directory decode encode root w
  = (o, World m (trace w ++ Stdout (Banner root) :: evs
                   ++ match o with Ret c => closing c | Raise _ => [] end)).
Proof.
  intros Hd E. unfold process_directory. unfold bind at 1. unfold emit at 1.
  unfold bind at 1. rewrite rglob_returns by exact Hd. cbn [fs].
  unfold bind at 1. rewrite E.
  destruct o as [c|e].
  - unfold bind, emit, ret, closing. cbn [fs trace].
    destruct (0 <? error_count c)%nat; cbn [fs trace];
      by rewrite <- !app_assoc.
  - by rewrite app_nil_r, <- app_assoc.
Qed.

(** A run of [process_directory] on a root for which [stat] does not
    raise.  Whether it returns or not, it hands no entry to the transform
    but a chosen one that the enumeration yields, and none twice; it
    changes no entry but those that such entries name.  It returns when
    [stat] raises for no entry of the enumeration, and then every chosen
    entry of the enumeration was handed over once and counted. *)
Lemma process_directory_run root w :
  denied (fs w) root = false ->
  exists o m evs,
    process_directory decode encode root w = (o, World m (trace w ++ evs)) /\
    same_shape (fs w) m /\
    (forall item,
        (times_processed item evs
         <= if yielded root (fs w) item && chosen root (fs w) item then 1 else 0)%nat) /\
    (forall item e, e ∈ evs -> touches item e = true ->
                    yielded root (fs w) item = true /\
                    chosen root (fs w) item = true) /\
    (forall p, (forall item, yielded root (fs w) item = true ->
                             chosen root (fs w) item = true ->
                             resolve (fs w) item <> p) ->
               m !! p = fs w !! p) /\
    match o with
    | Ret c =>
        (forall item, yielded root (fs w) item = true -> denied (fs w) item = false) /\
        (forall item,
            times_processed item evs
            = if yielded root (fs w) item && chosen root (fs w) item
              then 1%nat else O) /\
        processed_count c
        = length (List.filter (chosen root (fs w))
                    (List.filter (yielded root (fs w)) (fst <$> map_to_list (fs w)))) /\
        (changed_count c <= processed_count c)%nat /\
        error_count c = O
    | Raise e =>
        e = OSError /\
        exists item, yielded root (fs w) item = true /\ denied (fs w) item = true
    end.
Proof.
  intros Hd.
  set (items := List.filter (yielded root (fs w)) (fst <$> map_to_list (fs w))).
  destruct (visit_all_run root items (Counts 0 0 0)
              (World (fs w) (trace w ++ [Stdout (Banner root)])))
    as (o & m & evs & E & Hm & (Hle & Htouch & Hframe) & Ho).
  { apply rglob_NoDup. }
  { intros item Hitem. apply rglob_elem_of in Hitem as [Hy _].
    by eapply yielded_below. }
  cbn [fs trace] in *.
  rewrite (process_directory_eq root w o m evs Hd E).
  eexists o, m, _. split; [reflexivity|]. split; [exact Hm|].
  assert (forall item,
             times_processed item
               (Stdout (Banner root) :: evs
                  ++ match o with Ret c => closing c | Raise _ => [] end)
             = times_processed item evs) as Htp.
  { intros item.
    change (Stdout (Banner root) :: evs ++ ?l)
      with ([Stdout (Banner root)] ++ evs ++ l).
    rewrite !times_processed_app.
    replace (times_processed item match o with Ret c => closing c | Raise _ => [] end)
      with O by (destruct o; [by rewrite closing_not_processed|reflexivity]).
    unfold times_processed. cbn. lia. }
  split; [|split; [|split]].
  - intros item. rewrite Htp, <- handed_over_rglob. apply Hle.
  - intros item e He Ht.
    apply elem_of_cons in He as [->|He]; [discriminate|].
    apply elem_of_app in He as [He|He].
    + destruct (Htouch item e He Ht) as [Hin Hc]. split; [|exact Hc].
      by apply rglob_elem_of in Hin as [? _].
    + destruct o as [c|e']; [|by apply elem_of_nil in He].
      rewrite (closing_untouched c item e He) in Ht. discriminate.
  - intros p Hp. apply Hframe. intros item Hin Hc.
    apply Hp; [|exact Hc]. by apply rglob_elem_of in Hin as [? _].
  - destruct o as [c|e].
    + destruct Ho as (Hnd & Heq & Hp & Hc & He).
      cbn [processed_count changed_count error_count] in *.
      split; [|split; [|split; [|split]]].
      * intros item Hy. destruct (denied (fs w) item) eqn:Hden; [|reflexivity].
        rewrite <- Hden. apply Hnd, rglob_elem_of. split; [exact Hy|].
        apply stat_is_Some. unfold denied in Hden.
        destruct (stat (fs w) item); [eauto|discriminate].
      * intros item. by rewrite Htp, Heq, handed_over_rglob.
      * lia.
      * lia.
      * exact He.
    + destruct Ho as (-> & item & Hin & Hden). split; [reflexivity|].
      exists item. split; [|exact Hden]. by apply rglob_elem_of in Hin as [? _].
Qed.

(** A run on a root for which [stat] raises ends with that exception,
    after the opening lines. *)
Lemma process_directory_denied root w :
  denied (fs w) root = true ->
  process_directory decode encode root w
  = (Raise OSError, World (fs w) (trace w ++ [Stdout (Banner root)])).
Proof.
  intros Hd. unfold process_directory. unfold bind at 1. unfold emit at 1.
  unfold bind at 1. by rewrite rglob_raises.
Qed.

Lemma chosen_app root m rel f :
  rel <> [] ->
  m !! (root ++ rel) = Some (Regular f) ->
  chosen root m (root ++ rel)
  = negb (existsb skipped_part (ancestors rel))
    && bool_decide (lower (suffix (root ++ rel)) ∈ TARGET_EXTENSIONS).
Proof.
  intros Hrel Hf. unfold chosen.
  rewrite relative_to_app, below_app, (stat_regular _ _ _ Hf),
    bool_decide_eq_true_2 by done.
  by rewrite andb_true_r.
Qed.

(** *** The transform on a file that can be read *)

Lemma header_format_registered ext :
  ext ∈ TARGET_EXTENSIONS ->
  exists t, HEADER_COMMENT_FORMAT !! ext = Some t /\
            (newline ∉ before t) /\ (newline ∉ after t).
Proof.
  unfold TARGET_EXTENSIONS. intros H.
  repeat (apply elem_of_cons in H as [->|H];
          [eexists; split; [reflexivity|];
           split; intros Hn; cbv in Hn;
           repeat (apply elem_of_cons in Hn as [Hn|Hn]; [discriminate Hn|]);
           by apply elem_of_nil in Hn|]).
  by apply elem_of_nil in H.
Qed.

Lemma process_file_eq fp root rel t w original enc w1 :
  relative_to fp root = Some rel ->
  lower (suffix fp) ∈ TARGET_EXTENSIONS ->
  HEADER_COMMENT_FORMAT !! lower (suffix fp) = Some t ->
  read_file_content decode fp w = (Ret (Some (original, enc)), w1) ->
  process_file decode encode fp root w
  = (let final := final_content t rel (lower (suffix fp)) original in
     if bool_decide (final ≠ original) then
       (written <- write_file_content encode fp final enc ;;
        if written : bool then
          emit (Stdout
                  (if bool_decide (strip (clean_content original (lower (suffix fp)))
                                   ≠ strip original)
                   then RemovedCommentsAndUpdatedHeader (as_posix rel)
                   else UpdatedHeader (as_posix rel))) ;;;
          ret true
        else ret false) w1
     else (Ret false, w1)).
Proof.
  intros Hrel Hext Ht Hread. unfold process_file.
  rewrite (bool_decide_eq_true_2 _ Hext). cbn [negb].
  unfold bind at 1. rewrite Hread.
  unfold create_header. rewrite Hrel, Ht.
  unfold bind at 1. unfold bind at 1. unfold ret at 1. unfold ret at 1.
  cbv zeta. fold (final_content t rel (lower (suffix fp)) original).
  destruct (bool_decide (final_content t rel (lower (suffix fp)) original ≠ original));
    [|reflexivity].
  unfold bind at 1. unfold bind at 3.
  destruct (write_file_content encode fp _ enc w1) as [[[|]|e] w2]; try reflexivity.
  unfold relative_to_M. rewrite Hrel. reflexivity.
Qed.

End RunFacts.
End RunFacts.

(** ** The tree walker and the entry point *)
Module WalkerClaims.
Import RunFacts.

Section Walker.
Variable decode : encoding -> list Byte.byte -> option str.
Variable encode : encoding -> str -> option (list Byte.byte).




Lemma lower_target_extension ext : ext ∈ TARGET_EXTENSIONS -> lower ext = ext.
Proof.
  unfold TARGET_EXTENSIONS. intros H.
  repeat (apply elem_of_cons in H as [->|H]; [reflexivity|]).
  by apply elem_of_nil in H.
Qed.

(** The transform on a regular file below the root that could be read. *)
Lemma process_file_outcome fp root rel t w original enc w1 f :
  relative_to fp root = Some rel ->
  lower (suffix fp) ∈ TARGET_EXTENSIONS ->
  HEADER_COMMENT_FORMAT !! lower (suffix fp) = Some t ->
  read_file_content decode fp w = (Ret (Some (original, enc)), w1) ->
  fs w !! fp = Some (Regular f) ->
  let final := final_content t rel (lower (suffix fp)) original in
  (final = original -> process_file decode encode fp root w = (Ret false, w1)) /\
  (final <> original -> writable f = true ->
   forall b, encode enc final = Some b ->
     exists msg,
       process_file decode encode fp root w
       = (Ret true,
          World (<[fp := Regular (File b (readable f) (writable f))]> (fs w))
            (trace w1 ++ [Write fp enc final; Stdout msg]))).
Proof.
  intros Hrel Hext Ht Hread Hf final. split.
  - intros Heq.
    rewrite (process_file_eq decode encode fp root rel t w original enc _
               Hrel Hext Ht Hread).
    cbv zeta. fold final. rewrite bool_decide_eq_false_2; [reflexivity|].
    by intros H.
  - intros Hne Hw b Hb.
    rewrite (process_file_eq decode encode fp root rel t w original enc _
               Hrel Hext Ht Hread).
    cbv zeta. fold final. rewrite (bool_decide_eq_true_2 _ Hne).
    pose proof (read_file_content_fs decode fp w _ w1 Hread) as Hw1.
    unfold bind at 1.
    unfold write_file_content, try_except, write_text, store, bind, ret, emit.
    cbv zeta. cbn [fs trace].
    rewrite Hw1, (resolve_regular _ _ _ Hf), Hf, Hw, Hb. cbn [fs trace].
    eexists. by rewrite <- !app_assoc.
Qed.

(** C9.  A regular file below the root, with no skipped ancestor, whose
    suffix is a target extension [ext] up to the case of its letters, is
    chosen by the walker: the turn of the loop hands it to [process_file]
    and counts it, and a run that comes to its end and reaches the file
    hands it over once.  The transform treats it as a file of the kind
    [ext]: it reads it, strips it with the patterns of [ext], puts the header
    of [ext] before it and, where that changed the content, writes the file
    back and returns [True]. *)
Theorem extension_case_is_ignored (root rel : path) (ext : str) (f : file)
    (w : world) :
  rel <> [] ->
  fs w !! (root ++ rel) = Some (Regular f) ->
  existsb skipped_part (ancestors rel) = false ->
  ext ∈ TARGET_EXTENSIONS ->
  lower (suffix (root ++ rel)) = lower ext ->
  chosen root (fs w) (root ++ rel) = true /\
  (forall c, exists b m evs,
      process_file decode encode (root ++ rel) root w
      = (Ret b, World m (trace w ++ Read (root ++ rel) utf_8 :: evs)) /\
      visit decode encode root (root ++ rel) c w
      = (Ret (Counts (S (processed_count c))
                     (if b then S (changed_count c) else changed_count c)
                     (error_count c)),
         World m (trace w ++ Read (root ++ rel) utf_8 :: evs))) /\
  (denied (fs w) root = false ->
   yielded root (fs w) (root ++ rel) = true ->
   (forall item, yielded root (fs w) item = true -> denied (fs w) item = false) ->
   exists c m evs,
     process_directory decode encode root w = (Ret c, World m (trace w ++ evs)) /\
     times_processed (root ++ rel) evs = 1%nat) /\
  (exists t, HEADER_COMMENT_FORMAT !! ext = Some t /\
   forall original enc w1,
     read_file_content decode (root ++ rel) w = (Ret (Some (original, enc)), w1) ->
     let final := format t (as_posix rel) ++ [newline]
                    ++ lstrip (clean_content original ext) in
     (final = original ->
      process_file decode encode (root ++ rel) root w = (Ret false, w1)) /\
     (final <> original -> writable f = true ->
      forall b, encode enc final = Some b ->
        exists msg,
          process_file decode encode (root ++ rel) root w
          = (Ret true,
             World (<[root ++ rel := Regular (File b (readable f) (writable f))]> (fs w))
               (trace w1 ++ [Write (root ++ rel) enc final; Stdout msg])))).
Proof.
  intros Hrel Hf Hskip Hext Hlow.
  rewrite (lower_target_extension ext Hext) in Hlow.
  assert (chosen root (fs w) (root ++ rel) = true) as Hch.
  { rewrite (chosen_app root (fs w) rel f Hrel Hf), Hskip, Hlow.
    by rewrite bool_decide_eq_true_2. }
  split; [exact Hch|]. split; [|split].
  - intros c.
    destruct (visit_chosen decode encode root _ c w Hch) as (b & m & evs & E1 & E2 & _).
    by exists b, m, evs.
  - intros Hd Hy Hnd.
    destruct (process_directory_run decode encode root w Hd)
      as (o & m & evs & E & _ & _ & _ & _ & Ho).
    destruct o as [c|e].
    + destruct Ho as (_ & Heq & _). exists c, m, evs. split; [exact E|].
      by rewrite Heq, Hy, Hch.
    + destruct Ho as (_ & item & Hy' & Hden). rewrite (Hnd item Hy') in Hden.
      discriminate.
  - destruct (header_format_registered ext Hext) as (t & Ht & _).
    exists t. split; [exact Ht|].
    intros original enc w1 Hread. rewrite <- Hlow in Ht |- *.
    apply (process_file_outcome (root ++ rel) root rel t w original enc w1 f);
      auto using relative_to_app.
    by rewrite Hlow.
Qed.

(** C10.  The skip rules look at the ancestors only.  A regular file with
    a target extension and no skipped ancestor is chosen even when its own
    name would be skipped as a directory name (it starts with a dot, say):
    the turn of the loop hands it to [process_file] and counts it, and a run
    that reaches the file and comes to its end hands it over once. *)
Theorem own_name_is_not_checked (root dirs : path) (nm : str) (f : file)
    (c : counts) (w : world) :
  skipped_part nm = true ->
  fs w !! (root ++ dirs ++ [nm]) = Some (Regular f) ->
  existsb skipped_part dirs = false ->
  lower (suffix (root ++ dirs ++ [nm])) ∈ TARGET_EXTENSIONS ->
  (exists b m evs,
      process_file decode encode (root ++ dirs ++ [nm]) root w
      = (Ret b, World m (trace w ++ Read (root ++ dirs ++ [nm]) utf_8 :: evs)) /\
      visit decode encode root (root ++ dirs ++ [nm]) c w
      = (Ret (Counts (S (processed_count c))
                     (if b then S (changed_count c) else changed_count c)
                     (error_count c)),
         World m (trace w ++ Read (root ++ dirs ++ [nm]) utf_8 :: evs))) /\
  (denied (fs w) root = false ->
   yielded root (fs w) (root ++ dirs ++ [nm]) = true ->
   (forall item, yielded root (fs w) item = true -> denied (fs w) item = false) ->
   exists c' m evs,
     process_directory decode encode root w = (Ret c', World m (trace w ++ evs)) /\
     times_processed (root ++ dirs ++ [nm]) evs = 1%nat).
Proof.
  intros _ Hf Hskip Hext.
  assert (chosen root (fs w) (root ++ dirs ++ [nm]) = true) as Hch.
  { rewrite (chosen_app root (fs w) (dirs ++ [nm]) f); [|by destruct dirs|done].
    unfold ancestors. rewrite removelast_last, Hskip.
    by rewrite bool_decide_eq_true_2. }
  split.
  - destruct (visit_chosen decode encode root _ c w Hch) as (b & m & evs & E1 & E2 & _).
    by exists b, m, evs.
  - intros Hd Hy Hnd.
    destruct (process_directory_run decode encode root w Hd)
      as (o & m & evs & E & _ & _ & _ & _ & Ho).
    destruct o as [c'|e].
    + destruct Ho as (_ & Heq & _). exists c', m, evs. split; [exact E|].
      by rewrite Heq, Hy, Hch.
    + destruct Ho as (_ & item & Hy' & Hden). rewrite (Hnd item Hy') in Hden.
      discriminate.
Qed.

End Walker.
End WalkerClaims.
(** ** The file transform *)
Module TransformFacts.
Import Re ReFacts Delimited Stripper.

Lemma suffix_of_snoc (a b l : str) (x : N) :
  a ++ b = l ++ [x] -> b <> [] -> exists b0, b = b0 ++ [x] /\ a ++ b0 = l.
Proof.
  intros E Hb. destruct (exists_last Hb) as (b0 & y & ->).
  rewrite app_assoc in E. apply app_inj_tail in E as [E ->]. eauto.
Qed.

(** Between the two spaces of a header, the closing delimiter can only
    come from the path. *)
Lemma no_early_close (c path tail : str) :
  c <> [] -> space ∉ c -> contains c path = false ->
  forall a b, space :: path ++ [space] = a ++ b -> b <> [] ->
              ~ c `prefix_of` (b ++ c ++ tail).
Proof.
  intros Hc Hsp Hpath a b E Hb Hpre.
  pose proof (suffix_of_snoc a b (space :: path) space (eq_sym E) Hb)
    as (b0 & Eb & E').
  subst b. rewrite <- app_assoc in Hpre. cbn [app] in Hpre.
  apply prefix_app_sep in Hpre; [|assumption].
  destruct a as [|x a]; cbn [app] in E'.
  - subst b0. destruct c as [|y c]; [done|].
    destruct Hpre as [k Hk]. injection Hk as Hy _. subst y. apply Hsp. left.
  - injection E' as _ E'. by apply (contains_false c path a b0).
Qed.

(** Stripping a text that is a header line and a body without comments
    gives back the line break and the body. *)
Lemma strip_header (o c path rest : str) :
  (0 < length o)%nat -> c <> [] -> space ∉ c ->
  contains c path = false ->
  (forall q, match_at (delimited o c) q (newline :: rest) = None) ->
  search (delimited o c) rest = false ->
  sub (delimited o c) ((o ++ [space]) ++ path ++ ([space] ++ c) ++ newline :: rest)
  = newline :: rest.
Proof.
  intros Ho Hc Hsp Hpath Hnl Hrest. unfold sub.
  assert ((o ++ [space]) ++ path ++ ([space] ++ c) ++ newline :: rest
          = (o ++ (space :: path ++ [space]) ++ c) ++ newline :: rest) as ->.
  { rewrite <- !app_assoc. cbn [app]. by rewrite <- !app_assoc. }
  rewrite sub_from_match.
  - apply sub_from_no_match. cbn [search_from]. rewrite Hnl.
    rewrite (search_from_prev _ _ None) by apply delimited_no_lookbehind.
    rewrite bool_decide_eq_false_2; [exact Hrest|]. by intros [? ?].
  - destruct o; simpl in *; [lia | discriminate].
  - set (mid := space :: path ++ [space]).
    replace ((o ++ mid ++ c) ++ newline :: rest)
      with (o ++ mid ++ c ++ newline :: rest) by (by rewrite <- !app_assoc).
    apply delimited_match_first.
    intros a b E Hb. eapply no_early_close; eauto.
Qed.

Lemma search_from_line_comment_newline rest :
  search_from line_comment (Some newline) rest = search line_comment rest.
Proof. by destruct rest. Qed.

Lemma strip_line_comments_after_newline rest :
  search line_comment rest = false ->
  sub line_comment (newline :: rest) = newline :: rest.
Proof.
  intros H. apply sub_from_no_match. cbn [search_from].
  rewrite search_from_line_comment_newline, H.
  rewrite bool_decide_eq_false_2; [reflexivity|]. by intros [? ?].
Qed.

Lemma first_line_app (h body : str) :
  newline ∉ h -> first_line (h ++ newline :: body) = h.
Proof.
  induction h as [|x h IH]; intros Hh.
  - reflexivity.
  - apply not_elem_of_cons in Hh as [Hx Hh]. cbn [app first_line].
    rewrite (proj2 (N.eqb_neq x newline)) by congruence. by rewrite IH.
Qed.

End TransformFacts.

Module TransformClaims.
Import Re ReFacts Delimited Stripper TransformFacts RunFacts.

(** The comments of a header line followed by a body without comments:
    only the header goes. *)
Lemma clean_header_line (ext : str) (t : template) (rel : path) (rest : str) :
  ext ∈ TARGET_EXTENSIONS ->
  HEADER_COMMENT_FORMAT !! ext = Some t ->
  (forall p ps, COMMENT_REGEX !! ext = Some ps -> p ∈ ps -> search p rest = false) ->
  contains (lstrip (after t)) (as_posix rel) = false ->
  clean_content (format t (as_posix rel) ++ [newline] ++ rest) ext = newline :: rest.
Proof.
  unfold TARGET_EXTENSIONS. intros Hext Ht Hrest Hpath.
  assert (forall o c : str,
             (0 < length o)%nat -> c <> [] -> space ∉ c ->
             contains c (as_posix rel) = false ->
             (forall q, match_at (delimited o c) q (newline :: rest) = None) ->
             search (delimited o c) rest = false ->
             sub (delimited o c)
               (format (Template (o ++ [space]) ([space] ++ c)) (as_posix rel)
                  ++ [newline] ++ rest)
             = newline :: rest) as Hstrip.
  { intros o c Ho Hc Hsp Hp Hnl Hs. rewrite <- (strip_header o c (as_posix rel) rest) by auto.
    unfold format. cbn [before after]. by rewrite <- !app_assoc. }
  repeat (apply elem_of_cons in Hext as [->|Hext]);
    [| | |by apply elem_of_nil in Hext].
  - assert (t = Template (py "<!--" ++ [space]) ([space] ++ py "-->")) as ->
        by (vm_compute in Ht; by injection Ht as <-).
    unfold clean_content. rewrite COMMENT_REGEX_html. cbn [foldl].
    rewrite html_comment_delimited. apply Hstrip; auto.
    + simpl. lia.
    + not_in_literal.
    + rewrite <- html_comment_delimited.
      apply (Hrest _ _ COMMENT_REGEX_html). set_solver.
  - assert (t = Template (py "/*" ++ [space]) ([space] ++ py "*/")) as ->
        by (vm_compute in Ht; by injection Ht as <-).
    unfold clean_content. rewrite COMMENT_REGEX_css. cbn [foldl].
    rewrite block_comment_delimited. apply Hstrip; auto.
    + simpl. lia.
    + not_in_literal.
    + rewrite <- block_comment_delimited.
      apply (Hrest _ _ COMMENT_REGEX_css). set_solver.
  - assert (t = Template (py "/*" ++ [space]) ([space] ++ py "*/")) as ->
        by (vm_compute in Ht; by injection Ht as <-).
    unfold clean_content. rewrite COMMENT_REGEX_js. cbn [foldl].
    rewrite block_comment_delimited, Hstrip; auto.
    + apply strip_line_comments_after_newline.
      apply (Hrest _ _ COMMENT_REGEX_js). set_solver.
    + simpl. lia.
    + not_in_literal.
    + rewrite <- block_comment_delimited.
      apply (Hrest _ _ COMMENT_REGEX_js). set_solver.
Qed.

Section Transform.
Variable decode : encoding -> list Byte.byte -> option str.
Variable encode : encoding -> str -> option (list Byte.byte).

(** A successful read adds its reads to the trace and nothing else. *)
Lemma read_file_content_some fp w original enc w1 :
  read_file_content decode fp w = (Ret (Some (original, enc)), w1) ->
  w1 = World (fs w)
         (trace w ++ match enc with
                     | utf_8 => [Read fp utf_8]
                     | latin_1 => [Read fp utf_8; Read fp latin_1]
                     end).
Proof.
  unfold read_file_content, encodings_to_try, try_encodings, try_except, read_text,
    bind, emit, ret. cbn [fs trace].
  destruct (stored_text decode (fs w) fp utf_8) as [c|e]; cbv beta iota zeta.
  - intros H. by injection H as <- <- <-.
  - destruct e; try (intros H; discriminate H).
    cbn [fs trace].
    destruct (stored_text decode (fs w) fp latin_1) as [c|e]; cbv beta iota zeta.
    + intros H. injection H as <- <- <-. by rewrite <- app_assoc.
    + destruct e; intros H; discriminate H.
Qed.

(** C3, amended.  Take a file below the root, of a recognized kind, whose
    text is the correct header line followed by a body that has no span
    matching a pattern of the kind and no leading white space, and whose
    relative path does not contain the closing delimiter of the header.
    Then the transform arrives at the text it has read: it returns [False],
    nothing is written, and the file system is as before. *)
Theorem transform_is_idempotent (fp root rel : path) (t : template)
    (original rest : str) (enc : encoding) (w w1 : world) :
  relative_to fp root = Some rel ->
  lower (suffix fp) ∈ TARGET_EXTENSIONS ->
  HEADER_COMMENT_FORMAT !! lower (suffix fp) = Some t ->
  read_file_content decode fp w = (Ret (Some (original, enc)), w1) ->
  original = format t (as_posix rel) ++ [newline] ++ rest ->
  (forall p ps, COMMENT_REGEX !! lower (suffix fp) = Some ps -> p ∈ ps ->
                search p rest = false) ->
  lstrip rest = rest ->
  contains (lstrip (after t)) (as_posix rel) = false ->
  process_file decode encode fp root w = (Ret false, w1) /\
  fs w1 = fs w /\
  exists reads, trace w1 = trace w ++ reads /\
                Forall (fun e => exists enc', e = Read fp enc') reads.
Proof.
  intros Hrel Hext Ht Hread -> Hrest Hlstrip Hpath. split.
  - rewrite (process_file_eq decode encode fp root rel t w _ enc w1 Hrel Hext Ht Hread).
    cbv zeta. unfold final_content.
    rewrite (clean_header_line _ t rel rest) by assumption.
    change (lstrip (newline :: rest)) with (lstrip rest). rewrite Hlstrip.
    by rewrite bool_decide_eq_false_2 by (intros H; by apply H).
  - apply read_file_content_some in Hread as ->. cbn [fs trace]. split; [done|].
    eexists. split; [reflexivity|]. destruct enc; repeat constructor; eauto.
Qed.

(** C4, amended.  For a file below the root, of a recognized kind, whose
    relative path has no line break: the content the transform arrives at
    is the header of the kind filled with the slash-separated relative path,
    a line break, and the stripped text without its leading white space; its
    line 1 is exactly that header; and this content is what is written back,
    when it differs from the text read. *)
Theorem header_is_line_one (fp root rel : path) (original : str) (enc : encoding)
    (w w1 : world) :
  relative_to fp root = Some rel ->
  lower (suffix fp) ∈ TARGET_EXTENSIONS ->
  read_file_content decode fp w = (Ret (Some (original, enc)), w1) ->
  newline ∉ as_posix rel ->
  exists t,
    HEADER_COMMENT_FORMAT !! lower (suffix fp) = Some t /\
    let header := format t (as_posix rel) in
    let final := header ++ [newline]
                   ++ lstrip (clean_content original (lower (suffix fp))) in
    first_line final = header /\
    process_file decode encode fp root w
    = (if bool_decide (final ≠ original) then
         (written <- write_file_content encode fp final enc ;;
          if written : bool then
            emit (Stdout
                    (if bool_decide (strip (clean_content original (lower (suffix fp)))
                                     ≠ strip original)
                     then RemovedCommentsAndUpdatedHeader (as_posix rel)
                     else UpdatedHeader (as_posix rel))) ;;;
            ret true
          else ret false) w1
       else (Ret false, w1)).
Proof.
  intros Hrel Hext Hread Hnl.
  destruct (header_format_registered _ Hext) as (t & Ht & Hb & Ha).
  exists t. split; [exact Ht|]. cbv zeta. split.
  - apply first_line_app. unfold format.
    by rewrite !not_elem_of_app.
  - by rewrite (process_file_eq decode encode fp root rel t w _ enc w1 Hrel Hext Ht Hread).
Qed.

End Transform.
End TransformClaims.
Module Witnesses.
Import Site Samples RunFacts.

Ltac compute_in_list := apply (bool_decide_unpack _); vm_compute; exact I.

(** C3 as stated fails.  The script [a.js] starts with its correct header
    line, and what follows has no comment; but what follows starts with an
    empty line, which the transform trims: the file is written. *)
Lemma blank_line_after_header_is_rewritten :
  let fp := site ++ [py "a.js"] in
  let rest := [newline] ++ py "foo();" ++ [newline] in
  let run := run_process_file fp site w_blank in
  fst (create_header fp site (py ".js") w_blank) = Ret (Some (py "/* a.js */")) /\
  fst (read_file_content Codec.decode fp w_blank)
  = Ret (Some (py "/* a.js */" ++ [newline] ++ rest, utf_8)) /\
  Re.search block_comment rest = false /\
  Re.search line_comment rest = false /\
  fst run = Ret true /\
  trace (snd run)
  = [Read fp utf_8;
     Write fp utf_8 (py "/* a.js */" ++ [newline] ++ py "foo();" ++ [newline]);
     Stdout (RemovedCommentsAndUpdatedHeader (py "a.js"))].
Proof. vm_compute. repeat split. Qed.

Lemma transform_is_idempotent_witness :
  run_process_file (site ++ [py "a.js"]) site w_clean
  = (Ret false, World (fs w_clean) [Read (site ++ [py "a.js"]) utf_8]).
Proof.
  apply (TransformClaims.transform_is_idempotent
           Codec.decode Codec.encode (site ++ [py "a.js"]) site [py "a.js"]
           (Template (py "/* ") (py " */"))
           (py "/* a.js */" ++ [newline] ++ py "foo();" ++ [newline])
           (py "foo();" ++ [newline]) utf_8 w_clean).
  - reflexivity.
  - compute_in_list.
  - reflexivity.
  - reflexivity.
  - reflexivity.
  - intros p ps Hps Hp. vm_compute in Hps. injection Hps as <-.
    repeat (apply elem_of_cons in Hp as [->|Hp]; [reflexivity|]).
    by apply elem_of_nil in Hp.
  - reflexivity.
  - reflexivity.
Defined.

(** C4 as stated fails.  For the script named [a], line break, [b.js], the
    transform builds its header and writes it first, but line 1 of what it
    writes is only the start of that header. *)
Lemma header_spans_two_lines :
  let fp := site ++ [py "a" ++ [newline] ++ py "b.js"] in
  let header := py "/* a" ++ [newline] ++ py "b.js */" in
  let run := run_process_file fp site w_newline in
  fst (create_header fp site (py ".js") w_newline) = Ret (Some header) /\
  fst run = Ret true /\
  trace (snd run)
  = [Read fp utf_8;
     Write fp utf_8 (header ++ [newline] ++ py "x");
     Stdout (UpdatedHeader (py "a" ++ [newline] ++ py "b.js"))] /\
  first_line (header ++ [newline] ++ py "x") = py "/* a" /\
  first_line (header ++ [newline] ++ py "x") <> header.
Proof. vm_compute. repeat split. discriminate. Qed.

Lemma header_is_line_one_witness :
  first_line (py "/* src/app.Js */" ++ [newline] ++ py "foo(); ")
  = py "/* src/app.Js */".
Proof.
  destruct (TransformClaims.header_is_line_one
              Codec.decode Codec.encode (site ++ [py "src"; py "app.Js"]) site
              [py "src"; py "app.Js"] (py "foo(); // comment") utf_8 w_site
              (World (fs w_site) [Read (site ++ [py "src"; py "app.Js"]) utf_8]))
    as (t & Ht & Hfirst & _).
  - reflexivity.
  - compute_in_list.
  - reflexivity.
  - intros H. vm_compute in H.
    repeat (apply elem_of_cons in H as [H|H]; [discriminate H|]).
    by apply elem_of_nil in H.
  - vm_compute in Ht. injection Ht as <-. exact Hfirst.
Defined.






(** [PAGE.HTML] is chosen, and the transform treats it as a page: it
    strips the comment of the markup kind and writes the header of that
    kind. *)
Lemma extension_case_is_ignored_witness :
  let fp := site ++ [py "PAGE.HTML"] in
  let final := py "<!-- PAGE.HTML -->" ++ [newline] ++ py "<p>hi</p>" in
  chosen site (fs w_site) fp = true /\
  exists msg,
    run_process_file fp site w_site
    = (Ret true,
       World (<[fp := stored final]> (fs w_site))
         [Read fp utf_8; Write fp utf_8 final; Stdout msg]).
Proof.
  intros fp final.
  destruct (WalkerClaims.extension_case_is_ignored Codec.decode Codec.encode site
              [py "PAGE.HTML"] (py ".html")
              (File (omap Byte.of_N (py "<p>hi</p><!-- note -->")) true true) w_site)
    as (H1 & _ & _ & t & Ht & H4);
    [discriminate | reflexivity | reflexivity | compute_in_list | reflexivity |].
  split; [exact H1|].
  vm_compute in Ht. injection Ht as <-.
  destruct (H4 (py "<p>hi</p><!-- note -->") utf_8 (World (fs w_site) [Read fp utf_8]))
    as [_ Hw]; [reflexivity|].
  destruct (Hw) with (b := omap Byte.of_N final) as [msg E];
    [compute_in_list | reflexivity | reflexivity |].
  exists msg. unfold run_process_file. subst fp final. rewrite E. reflexivity.
Defined.

(** The script [.hidden.js], directly below the root, is handed to the
    transform, which writes its header into it, and is counted as changed. *)
Lemma own_name_is_not_checked_witness :
  skipped_part (py ".hidden.js") = true /\
  exists m,
    visit Codec.decode Codec.encode site (site ++ [py ".hidden.js"]) (Counts 0 0 0) w_site
    = (Ret (Counts 1 1 0),
       World m
         [Read (site ++ [py ".hidden.js"]) utf_8;
          Write (site ++ [py ".hidden.js"]) utf_8
            (py "/* .hidden.js */" ++ [newline] ++ py "bar();");
          Stdout (UpdatedHeader (py ".hidden.js"))]).
Proof.
  split; [reflexivity|].
  destruct (WalkerClaims.own_name_is_not_checked Codec.decode Codec.encode site []
              (py ".hidden.js") (File (omap Byte.of_N (py "bar();")) true true)
              (Counts 0 0 0) w_site)
    as [(b & m & evs & Epf & Evisit) _];
    [reflexivity | reflexivity | reflexivity | compute_in_list |].
  cbn [app] in Epf, Evisit.
  assert (fst (process_file Codec.decode Codec.encode (site ++ [py ".hidden.js"]) site w_site)
          = Ret true) as Hb by (vm_compute; reflexivity).
  assert (trace (snd (process_file Codec.decode Codec.encode
                        (site ++ [py ".hidden.js"]) site w_site))
          = [Read (site ++ [py ".hidden.js"]) utf_8;
             Write (site ++ [py ".hidden.js"]) utf_8
               (py "/* .hidden.js */" ++ [newline] ++ py "bar();");
             Stdout (UpdatedHeader (py ".hidden.js"))]) as Ht
      by (vm_compute; reflexivity).
  rewrite Epf in Hb, Ht. cbn [fst snd trace] in Hb, Ht. injection Hb as ->.
  exists m. rewrite Evisit. by rewrite Ht.
Defined.

End Witnesses.
(** ** More on the comment stripper *)
Module StripperExtras.
Import Re ReFacts Delimited Stripper.

Lemma sub_from_sublist p prev skip s : sub_from p prev skip s `sublist_of` s.
Proof.
  revert prev skip. induction s as [|x s IH]; intros prev skip; [constructor|].
  simpl. destruct skip as [|k]; [|by apply sublist_cons].
  destruct (match_at p prev (x :: s)) as [[|k]|];
    [by apply sublist_skip | by apply sublist_cons | by apply sublist_skip].
Qed.

(** X1.  Stripping only removes characters: for every extension, what
    [clean_content] returns is a subsequence of the content it was given,
    and so is never longer. *)
Theorem clean_content_only_removes (content ext : str) :
  clean_content content ext `sublist_of` content /\
  (length (clean_content content ext) <= length content)%nat.
Proof.
  assert (clean_content content ext `sublist_of` content) as H.
  { unfold clean_content. destruct (COMMENT_REGEX !! ext) as [ps|]; [|done].
    revert content. induction ps as [|p ps IH]; intros content; [done|].
    cbn [foldl]. etrans; [apply IH|]. apply sub_from_sublist. }
  split; [exact H | by apply sublist_length].
Qed.

Lemma COMMENT_REGEX_other ext :
  ext ∉ TARGET_EXTENSIONS -> COMMENT_REGEX !! ext = None.
Proof.
  unfold TARGET_EXTENSIONS, COMMENT_REGEX. intros H.
  apply not_elem_of_cons in H as [H1 H]. apply not_elem_of_cons in H as [H2 H].
  apply not_elem_of_cons in H as [H3 _].
  by rewrite !lookup_insert_ne, lookup_empty by done.
Qed.

(** X2.  An extension without an entry in [COMMENT_REGEX] (anything but
    [.html], [.css], [.js], also the same letters in upper case) leaves the
    content as it is. *)
Theorem clean_content_unknown_extension (content ext : str) :
  ext ∉ TARGET_EXTENSIONS -> clean_content content ext = content.
Proof. intros H. unfold clean_content. by rewrite COMMENT_REGEX_other. Qed.

Lemma clean_content_unknown_extension_witness :
  clean_content (py "a /* b */") (py ".JS") = py "a /* b */" /\
  clean_content (py "a /* b */") (py ".txt") = py "a /* b */".
Proof.
  split; apply clean_content_unknown_extension; not_in_literal.
Defined.

(** X3.  A content in which no pattern of its kind finds a match comes
    back unchanged. *)
Theorem clean_content_without_comments (content ext : str) (ps : list pattern) :
  COMMENT_REGEX !! ext = Some ps ->
  (forall p, p ∈ ps -> search p content = false) ->
  clean_content content ext = content.
Proof.
  intros Hps Hno. unfold clean_content. rewrite Hps. clear Hps.
  induction ps as [|p ps IH]; [reflexivity|].
  assert (sub p content = content) as E by (apply sub_from_no_match, Hno; left).
  cbn [foldl]. cbv beta. rewrite E.
  apply IH. intros q Hq. apply Hno. by right.
Qed.

Lemma clean_content_without_comments_witness :
  clean_content (py "let a = b / c; let u = 'x:y';") (py ".js")
  = py "let a = b / c; let u = 'x:y';".
Proof.
  apply (clean_content_without_comments _ _ [block_comment; line_comment]).
  - reflexivity.
  - intros p Hp.
    repeat (apply elem_of_cons in Hp as [->|Hp]; [reflexivity|]).
    by apply elem_of_nil in Hp.
Defined.

Lemma contains_app c a b : contains c (a ++ c ++ b) = true.
Proof.
  induction a as [|x a IH].
  - destruct (c ++ b) eqn:E; simpl; rewrite <- ?E;
      rewrite bool_decide_eq_true_2; auto; by exists b.
  - simpl. by rewrite IH, orb_true_r.
Qed.

Lemma contains_cons_false c x s : contains c (x :: s) = false -> contains c s = false.
Proof. simpl. by intros [_ H]%orb_false_iff. Qed.

(** A match of a delimited pattern needs its closing delimiter. *)
Lemma delimited_match_contains o c prev s n :
  match_at (delimited o c) prev s = Some n -> contains c s = true.
Proof.
  unfold match_at, delimited. cbn [atoms dotall multiline]. intros H.
  apply match_lits_inv in H as (s1 & k1 & -> & H & _).
  cbn [app] in H.
  apply match_lazy_inv in H as (mid & s2 & k2 & -> & H & _).
  rewrite <- (app_nil_r (lits c)) in H.
  apply match_lits_inv in H as (s3 & k3 & -> & _).
  rewrite (app_assoc o mid). apply contains_app.
Qed.

Lemma sub_delimited_unterminated o c prev s :
  contains c s = false -> sub_from (delimited o c) prev O s = s.
Proof.
  revert prev. induction s as [|x s IH]; intros prev H; [reflexivity|].
  rewrite sub_from_cons_None.
  - f_equal. apply IH. by apply contains_cons_false in H.
  - destruct (match_at (delimited o c) prev (x :: s)) as [n|] eqn:E; [|reflexivity].
    apply delimited_match_contains in E. congruence.
Qed.

(** X4.  A block comment that is never closed is not stripped: a page
    without [-->] and a style sheet without [*/] come back unchanged, and
    for a script without [*/] only the line comments go. *)
Theorem unterminated_comment_is_kept (content : str) :
  (contains (py "-->") content = false ->
   clean_content content (py ".html") = content) /\
  (contains (py "*/") content = false ->
   clean_content content (py ".css") = content /\
   clean_content content (py ".js") = sub line_comment content).
Proof.
  split.
  - intros H. unfold clean_content. rewrite COMMENT_REGEX_html. cbn [foldl].
    rewrite html_comment_delimited. by apply sub_delimited_unterminated.
  - intros H.
    assert (sub block_comment content = content) as E.
    { rewrite block_comment_delimited. by apply sub_delimited_unterminated. }
    unfold clean_content. rewrite COMMENT_REGEX_css, COMMENT_REGEX_js.
    cbn [foldl]. by rewrite E.
Qed.

Lemma unterminated_comment_is_kept_witness :
  clean_content (py "<p>a</p><!-- never closed") (py ".html")
  = py "<p>a</p><!-- never closed" /\
  clean_content (py "a { } /* never closed") (py ".css") = py "a { } /* never closed".
Proof.
  split.
  - by apply (proj1 (unterminated_comment_is_kept _)).
  - by apply (proj2 (unterminated_comment_is_kept _)).
Defined.

Lemma match_lazy_inv_dot d m p prev s n :
  match_atoms d m (LazyDotStar :: p) prev s = Some n ->
  exists mid s' k, s = mid ++ s' /\
                   forallb (dot_matches d) mid = true /\
                   match_atoms d m p (prev_after prev mid) s' = Some k /\
                   n = (length mid + k)%nat.
Proof.
  revert prev n. induction s as [|x s IH]; intros prev n H;
    rewrite match_lazy_eq in H.
  - destruct (match_atoms d m p prev []) as [k|] eqn:E; [|discriminate].
    injection H as <-. exists [], [], k. auto.
  - destruct (match_atoms d m p prev (x :: s)) as [k|] eqn:E.
    + injection H as <-. exists [], (x :: s), k. auto.
    + destruct (dot_matches d x) eqn:Hx; [|discriminate].
      destruct (match_atoms d m (LazyDotStar :: p) (Some x) s) as [n'|] eqn:E';
        [|discriminate].
      injection H as <-.
      destruct (IH _ _ E') as (mid & s' & k & -> & Hdot & Hk & ->).
      exists (x :: mid), s', k. simpl. rewrite Hx, Hdot. auto.
Qed.

(** A match of the line comment stays on its line. *)
Lemma line_comment_match_no_newline prev s n :
  match_at line_comment prev s = Some n -> newline ∉ take n s.
Proof.
  rewrite match_at_line_comment, match_not_behind. intros H.
  assert (match_atoms false true [Lit 47; Lit 47; LazyDotStar; Dollar] prev s = Some n)
    as H'.
  { destruct prev as [c|]; [destruct (c =? 58); [discriminate|]|]; exact H. }
  clear H.
  apply (match_lits_inv false true [47; 47] [LazyDotStar; Dollar]) in H'
    as (s1 & k1 & -> & H & ->).
  apply match_lazy_inv_dot in H as (mid & s2 & k2 & -> & Hdot & H & ->).
  assert (k2 = O) as ->.
  { cbn [match_atoms] in H. destruct (at_dollar true s2); [|discriminate].
    by injection H as <-. }
  assert (take (length [47; 47] + (length mid + 0)) ([47; 47] ++ mid ++ s2)
          = [47; 47] ++ mid) as ->.
  { rewrite Nat.add_0_r, app_assoc, <- length_app. by rewrite take_app_length. }
  intros Hin. apply elem_of_app in Hin as [Hin|Hin].
  - repeat (apply elem_of_cons in Hin as [Hin|Hin]; [discriminate Hin|]).
    by apply elem_of_nil in Hin.
  - rewrite forallb_forall in Hdot.
    apply list_elem_of_In, Hdot in Hin. unfold dot_matches in Hin.
    by rewrite N.eqb_refl in Hin.
Qed.

Lemma line_breaks_cons_other x s : x <> newline -> line_breaks (x :: s) = line_breaks s.
Proof.
  intros Hx. unfold line_breaks. cbn [List.filter].
  by rewrite (proj2 (N.eqb_neq newline x)) by congruence.
Qed.

Lemma line_breaks_cons x s s' :
  line_breaks s = line_breaks s' -> line_breaks (x :: s) = line_breaks (x :: s').
Proof.
  unfold line_breaks. cbn [List.filter]. intros H.
  destruct (newline =? x); cbn [length]; by rewrite ?H.
Qed.

Lemma sub_line_comment_line_breaks prev skip s :
  newline ∉ take skip s ->
  line_breaks (sub_from line_comment prev skip s) = line_breaks s.
Proof.
  revert prev skip. induction s as [|x s IH]; intros prev skip H; [reflexivity|].
  cbn [sub_from]. destruct skip as [|k].
  - destruct (match_at line_comment prev (x :: s)) as [[|k]|] eqn:E.
    + apply line_breaks_cons, IH. rewrite take_0. apply not_elem_of_nil.
    + apply line_comment_match_no_newline in E. cbn [take] in E.
      apply not_elem_of_cons in E as [Hx E].
      rewrite line_breaks_cons_other by congruence. by apply IH.
    + apply line_breaks_cons, IH. rewrite take_0. apply not_elem_of_nil.
  - cbn [take] in H. apply not_elem_of_cons in H as [Hx H].
    rewrite line_breaks_cons_other by congruence. by apply IH.
Qed.

(** X5.  Stripping line comments keeps every line break: the pass of the
    line-comment pattern leaves the number of lines as it is, and so does
    [clean_content] on a script in which the block-comment pattern finds
    nothing. *)
Theorem line_comments_keep_line_breaks (content : str) :
  line_breaks (sub line_comment content) = line_breaks content /\
  (search block_comment content = false ->
   line_breaks (clean_content content (py ".js")) = line_breaks content).
Proof.
  assert (line_breaks (sub line_comment content) = line_breaks content) as H.
  { apply sub_line_comment_line_breaks. rewrite take_0. apply not_elem_of_nil. }
  split; [exact H|]. intros Hb.
  unfold clean_content. rewrite COMMENT_REGEX_js. cbn [foldl].
  unfold sub at 2. by rewrite sub_from_no_match.
Qed.

Lemma line_comments_keep_line_breaks_witness :
  line_breaks (clean_content (py "a(); // one" ++ [newline] ++ py "// two"
                                ++ [newline] ++ py "b();") (py ".js"))
  = 2%nat.
Proof.
  rewrite (proj2 (line_comments_keep_line_breaks _)); reflexivity.
Defined.

Lemma prev_after_last prev pre :
  prev_after prev pre = match last pre with Some c => Some c | None => prev end.
Proof.
  revert prev. induction pre as [|x pre IH]; intros prev; [reflexivity|].
  cbn [prev_after]. rewrite IH. destruct pre as [|y pre]; [reflexivity|].
  change (last (x :: y :: pre)) with (last (y :: pre)).
  destruct (last (y :: pre)) eqn:E; [reflexivity|].
  by apply last_None in E.
Qed.

Lemma sub_block_slashes prev rest :
  42 ∉ rest ->
  sub_from block_comment prev O (47 :: 47 :: rest) = 47 :: 47 :: rest.
Proof.
  intros Hstar.
  rewrite sub_from_cons_None by (by apply block_comment_needs_star).
  rewrite sub_from_cons_None.
  - by rewrite sub_block_no_star.
  - destruct rest as [|y rest]; [apply block_comment_last|].
    apply block_comment_needs_star. apply not_elem_of_cons in Hstar. by destruct Hstar.
Qed.

Lemma line_comment_single_slash prev rest :
  47 ∉ rest -> match_at line_comment prev (47 :: rest) = None.
Proof.
  intros H. rewrite match_at_line_comment, match_not_behind.
  assert (match_atoms false true [Lit 47; Lit 47; LazyDotStar; Dollar] prev (47 :: rest)
          = None) as E.
  { cbn [match_atoms]. rewrite N.eqb_refl. destruct rest as [|y rest]; [reflexivity|].
    apply not_elem_of_cons in H as [Hy _].
    by rewrite (proj2 (N.eqb_neq y 47)) by congruence. }
  destruct prev as [c|]; [destruct (c =? 58)|]; auto.
Qed.

(** X6.  In a script, two slashes start a line comment wherever they
    stand, also inside a string literal, unless a colon stands right before
    them.  For a line [pre//rest] with no slash in [pre] and no star in
    [rest]: when [pre] does not end with a colon, the line is cut down to
    [pre]; when it does, and [rest] has no slash, the line is kept whole. *)
Theorem slashes_and_the_colon (pre rest : str) :
  47 ∉ pre -> 42 ∉ rest -> newline ∉ rest ->
  (last pre <> Some 58 ->
   clean_content (pre ++ py "//" ++ rest) (py ".js") = pre) /\
  (last pre = Some 58 -> 47 ∉ rest ->
   clean_content (pre ++ py "//" ++ rest) (py ".js") = pre ++ py "//" ++ rest).
Proof.
  intros Hpre Hstar Hnl.
  assert (sub block_comment (pre ++ 47 :: 47 :: rest) = pre ++ 47 :: 47 :: rest) as Hblock.
  { unfold sub. rewrite (sub_from_copy block_comment 47);
      [|apply block_comment_needs_slash|assumption].
    by rewrite sub_block_slashes. }
  assert (forall text, clean_content text (py ".js")
                       = sub line_comment (sub block_comment text)) as Hjs.
  { intros text. unfold clean_content. by rewrite COMMENT_REGEX_js. }
  change (py "//" ++ rest) with (47 :: 47 :: rest).
  rewrite Hjs, Hblock. unfold sub.
  rewrite (sub_from_copy line_comment 47);
    [|apply line_comment_needs_slash|assumption].
  rewrite prev_after_last. split.
  - intros Hlast. cbn [sub_from].
    rewrite line_comment_match; [|by destruct (last pre)|assumption].
    rewrite sub_from_skip_all by (simpl; lia). apply app_nil_r.
  - intros Hlast Hslash. rewrite Hlast.
    rewrite sub_from_cons_None by apply line_comment_not_after_colon.
    rewrite sub_from_cons_None by (by apply line_comment_single_slash).
    f_equal. f_equal. f_equal.
    rewrite <- (app_nil_r rest) at 1.
    rewrite (sub_from_copy line_comment 47);
      [apply app_nil_r|apply line_comment_needs_slash|assumption].
Qed.

(** The text of a string literal is cut like any other, and a port
    number behind a colon is kept. *)
Lemma slashes_and_the_colon_witness :
  clean_content (py "var s = " ++ [34] ++ py "a//b" ++ [34] ++ py ";") (py ".js")
  = py "var s = " ++ [34] ++ py "a" /\
  clean_content (py "host://8080") (py ".js") = py "host://8080".
Proof.
  split.
  - apply (proj1 (slashes_and_the_colon (py "var s = " ++ [34] ++ py "a")
                    (py "b" ++ [34] ++ py ";")
                    ltac:(not_in_literal) ltac:(not_in_literal) ltac:(not_in_literal))).
    vm_compute. discriminate.
  - apply (proj2 (slashes_and_the_colon (py "host:") (py "8080")
                    ltac:(not_in_literal) ltac:(not_in_literal) ltac:(not_in_literal)));
      [reflexivity | not_in_literal].
Defined.

End StripperExtras.

(** ** Colours *)
Module ColorExtras.

Lemma lower_char_idemp c : lower_char (lower_char c) = lower_char c.
Proof.
  unfold lower_char.
  destruct ((65 <=? c) && (c <=? 90)) eqn:E; [|by rewrite E].
  apply andb_true_iff in E as [E1 E2]. apply N.leb_le in E1, E2.
  assert ((c + 32 <=? 90) = false) as -> by (apply N.leb_gt; lia).
  by rewrite andb_false_r.
Qed.

Lemma lower_idemp s : lower (lower s) = lower s.
Proof.
  unfold lower. rewrite <- list_fmap_compose. apply list_fmap_ext.
  intros _ c _. apply lower_char_idemp.
Qed.

Lemma colors_other name : name ∉ color_names -> colors !! name = None.
Proof.
  unfold color_names, colors. intros H.
  repeat (apply not_elem_of_cons in H as [? H]).
  by rewrite !lookup_insert_ne, lookup_empty by done.
Qed.

(** X7.  [colorize] never alters the text it is given.  When standard
    output is no terminal, or on Windows without [TERM], it returns the
    text as it is; otherwise it puts the text between a start code and the
    reset code.  The colour name is looked up in lower case, and a name that
    is not in the table gives what ["default"] gives. *)
Theorem colorize_wraps_text (tm : terminal) (text color : str) :
  (isatty tm = false \/ (os_name_nt tm = true /\ has_TERM tm = false) ->
   colorize tm text color = text) /\
  (isatty tm = true -> os_name_nt tm = false \/ has_TERM tm = true ->
   exists code, colorize tm text color = code ++ text ++ [27] ++ py "[0m") /\
  colorize tm text color = colorize tm text (lower color) /\
  (lower color ∉ color_names ->
   colorize tm text color = colorize tm text (py "default")).
Proof.
  unfold colorize. repeat split.
  - intros [-> | [-> ->]]; [reflexivity|]. by rewrite orb_true_r.
  - intros -> [-> | ->]; cbn [negb orb andb]; rewrite ?andb_false_r; eauto.
  - by rewrite lower_idemp.
  - intros H. by rewrite (colors_other _ H).
Qed.

Lemma colorize_wraps_text_witness :
  colorize (Terminal false false true) (py "Error") (py "red") = py "Error" /\
  colorize (Terminal true false true) (py "Error") (py "RED")
  = [27] ++ py "[91mError" ++ [27] ++ py "[0m" /\
  colorize (Terminal true false true) (py "Error") (py "purple")
  = [27] ++ py "[0mError" ++ [27] ++ py "[0m".
Proof.
  destruct (colorize_wraps_text (Terminal false false true) (py "Error") (py "red"))
    as (H1 & _).
  destruct (colorize_wraps_text (Terminal true false true) (py "Error") (py "RED"))
    as (_ & _ & H2 & _).
  destruct (colorize_wraps_text (Terminal true false true) (py "Error") (py "purple"))
    as (_ & _ & _ & H3).
  split; [apply H1; by left|]. split.
  - rewrite H2. reflexivity.
  - rewrite H3; [reflexivity|]. intros H. vm_compute in H.
    repeat (apply elem_of_cons in H as [H|H]; [discriminate H|]).
    by apply elem_of_nil in H.
Defined.

End ColorExtras.
(** ** Reading, writing and the transform of one file *)
Module IOExtras.
Import RunFacts.

Section IO.
Variable decode : encoding -> list Byte.byte -> option str.
Variable encode : encoding -> str -> option (list Byte.byte).

(** X8.  [read_file_content] never raises and never changes the file
    system.  Where the path names a readable regular file, itself or as a
    link, the first codec that decodes the bytes wins, UTF-8 before
    latin-1, and the fallback is read only after UTF-8 has failed to
    decode; a device that can be read is read in the same way.  Where
    nothing is to be read (no such file, a broken link, a directory, an
    entry that [stat] cannot reach, a file without the permission, a device
    that cannot be read) it gives up after the first attempt and returns
    nothing. *)
Theorem read_file_content_first_codec_wins (fp : path) (w : world) :
  let read_of (b : list Byte.byte) :=
    match decode utf_8 b, decode latin_1 b with
    | Some c, _ =>
        (Ret (Some (c, utf_8)), World (fs w) (trace w ++ [Read fp utf_8]))
    | None, Some c =>
        (Ret (Some (c, latin_1)),
         World (fs w) (trace w ++ [Read fp utf_8; Read fp latin_1]))
    | None, None =>
        (Ret None,
         World (fs w) (trace w ++ [Read fp utf_8; Read fp latin_1;
                                   Stderr (CouldNotDecode fp)]))
    end in
  (forall f, stat (fs w) fp = Some (Regular f) -> readable f = true ->
     read_file_content decode fp w = read_of (bytes f)) /\
  (forall d b, stat (fs w) fp = Some (Special d) -> input d = Some b ->
     read_file_content decode fp w = read_of b) /\
  (match stat (fs w) fp with
   | Some (Regular f) => readable f = false
   | Some (Special d) => input d = None
   | _ => True
   end ->
   read_file_content decode fp w
   = (Ret None,
      World (fs w) (trace w ++ [Read fp utf_8; Stderr (ErrorReading fp)]))).
Proof.
  unfold read_file_content, encodings_to_try, try_encodings, try_except, read_text,
    stored_text, bind, emit, ret. cbn [fs trace]. split; [|split].
  - intros f Hf Hr.
    destruct (decode utf_8 (bytes f)) as [c|] eqn:E8;
      [by rewrite Hf, Hr, E8|].
    destruct (decode latin_1 (bytes f)) as [c|] eqn:E1;
      repeat (cbn [fs trace]; rewrite ?Hf, ?Hr, ?E8, ?E1);
      by rewrite <- !app_assoc.
  - intros d b Hd Hb.
    destruct (decode utf_8 b) as [c|] eqn:E8;
      [by rewrite Hd, Hb, E8|].
    destruct (decode latin_1 b) as [c|] eqn:E1;
      repeat (cbn [fs trace]; rewrite ?Hd, ?Hb, ?E8, ?E1);
      by rewrite <- !app_assoc.
  - intros H. destruct (stat (fs w) fp) as [[f|? ?|d| |]|] eqn:Hf;
      rewrite ?H; cbn [fs trace]; by rewrite <- !app_assoc.
Qed.

Lemma write_file_content_ok fp content enc w f b :
  fs w !! fp = Some (Regular f) -> writable f = true ->
  encode enc content = Some b ->
  write_file_content encode fp content enc w
  = (Ret true,
     World (<[fp := Regular (File b (readable f) (writable f))]> (fs w))
       (trace w ++ [Write fp enc content])).
Proof.
  intros Hf Hw Hb.
  unfold write_file_content, try_except, write_text, store, bind, ret.
  cbv zeta. by rewrite (resolve_regular _ _ _ Hf), Hf, Hw, Hb.
Qed.

Lemma write_file_content_denied fp content enc w f :
  fs w !! fp = Some (Regular f) -> writable f = false ->
  write_file_content encode fp content enc w
  = (Ret false,
     World (fs w) (trace w ++ [Write fp enc content; Stderr (ErrorWriting fp)])).
Proof.
  intros Hf Hw.
  unfold write_file_content, try_except, write_text, store, bind, ret, emit.
  cbv zeta. rewrite (resolve_regular _ _ _ Hf), Hf, Hw. cbn [fs trace].
  by rewrite <- app_assoc.
Qed.

Lemma write_file_content_returns fp content enc w :
  exists b w', write_file_content encode fp content enc w = (Ret b, w').
Proof.
  unfold write_file_content, try_except, write_text, store, bind, ret, emit.
  cbv zeta.
  destruct (fs w !! resolve (fs w) fp) as [[f|? ?|d| |]|];
    [destruct (writable f)| |destruct (accepts d)| | |];
    try (destruct (fs w !! ancestors (resolve (fs w) fp)) as [[|? []| | |]|]);
    try (destruct (encode enc content)); eauto.
Qed.

(** X9.  [write_file_content] never raises.  On a regular file that may
    not be written it opens the file, reports the error and returns [False]
    with the file system as it was.  On a writable regular file whose
    content the codec encodes it returns [True]; the file then holds the
    encoded bytes with its permissions as before, and reading it with the
    same codec gives what the codec decodes from those bytes. *)
Theorem write_file_content_result (fp : path) (content : str) (enc : encoding)
    (w : world) :
  (exists b w', write_file_content encode fp content enc w = (Ret b, w')) /\
  (forall f, fs w !! fp = Some (Regular f) -> writable f = false ->
     write_file_content encode fp content enc w
     = (Ret false,
        World (fs w)
          (trace w ++ [Write fp enc content; Stderr (ErrorWriting fp)]))) /\
  (forall f b, fs w !! fp = Some (Regular f) -> writable f = true ->
     encode enc content = Some b ->
     write_file_content encode fp content enc w
     = (Ret true,
        World (<[fp := Regular (File b (readable f) (writable f))]> (fs w))
          (trace w ++ [Write fp enc content])) /\
     (forall c, readable f = true -> decode enc b = Some c ->
        stored_text decode
          (<[fp := Regular (File b (readable f) (writable f))]> (fs w)) fp enc
        = Ret c)).
Proof.
  split; [apply write_file_content_returns|]. split.
  - intros f. apply write_file_content_denied.
  - intros f b Hf Hw Hb. split; [by apply write_file_content_ok|].
    intros c Hr Hc. unfold stored_text.
    rewrite (stat_regular _ fp _ (lookup_insert_eq _ _ _)).
    cbn [readable bytes]. by rewrite Hr, Hc.
Qed.

(** *** What a call leaves alone *)

Lemma frames_ret {A} fp (a : A) : frames fp (ret a).
Proof.
  intros w o w' H. injection H as <- <-. split; [done|]. split; [done|].
  exists []. by rewrite app_nil_r.
Qed.

Lemma frames_raise {A} fp e : frames fp (@raise A e).
Proof.
  intros w o w' H. injection H as <- <-. split; [done|]. split; [done|].
  exists []. by rewrite app_nil_r.
Qed.

Lemma frames_emit fp e : only_at fp e -> frames fp (emit e).
Proof.
  intros He w o w' H. injection H as <- <-. split; [done|]. split; [done|].
  exists [e]. split; [done|]. by constructor.
Qed.

Lemma frames_seq fp (w w1 w2 : world) :
  ((forall p, p <> resolve (fs w) fp -> fs w1 !! p = fs w !! p) /\
   resolve (fs w1) fp = resolve (fs w) fp /\
   exists evs, trace w1 = trace w ++ evs /\ Forall (only_at fp) evs) ->
  ((forall p, p <> resolve (fs w1) fp -> fs w2 !! p = fs w1 !! p) /\
   resolve (fs w2) fp = resolve (fs w1) fp /\
   exists evs, trace w2 = trace w1 ++ evs /\ Forall (only_at fp) evs) ->
  (forall p, p <> resolve (fs w) fp -> fs w2 !! p = fs w !! p) /\
  resolve (fs w2) fp = resolve (fs w) fp /\
  exists evs, trace w2 = trace w ++ evs /\ Forall (only_at fp) evs.
Proof.
  intros (H1 & R1 & evs1 & E1 & F1) (H2 & R2 & evs2 & E2 & F2).
  split; [|split].
  - intros p Hp. rewrite H2, H1; [reflexivity|exact Hp|]. by rewrite R1.
  - by rewrite R2.
  - exists (evs1 ++ evs2). rewrite E2, E1, app_assoc. split; [done|].
    by apply Forall_app.
Qed.

Lemma frames_bind {A B} fp (c : M A) (k : A -> M B) :
  frames fp c -> (forall a, frames fp (k a)) -> frames fp (bind c k).
Proof.
  intros Hc Hk w o w' H. unfold bind in H.
  destruct (c w) as [[a|e] w1] eqn:E1.
  - eapply frames_seq; [by eapply Hc | by eapply Hk].
  - injection H as <- <-. by eapply Hc.
Qed.

Lemma frames_try_except {A} fp (c : M A) (handler : exn -> M A) :
  frames fp c -> (forall e, frames fp (handler e)) -> frames fp (try_except c handler).
Proof.
  intros Hc Hk w o w' H. unfold try_except in H.
  destruct (c w) as [[a|e] w1] eqn:E1.
  - injection H as <- <-. by eapply Hc.
  - eapply frames_seq; [by eapply Hc | by eapply Hk].
Qed.

Lemma frames_read_text fp enc : frames fp (read_text decode fp enc).
Proof.
  intros w o w' H. unfold read_text in H. injection H as <- <-.
  split; [done|]. split; [done|].
  exists [Read fp enc]. split; [done|]. by constructor.
Qed.

(** Putting a regular file where [fp] leads leaves [fp] leading there. *)
Lemma resolve_insert_target (m : gmap path entry) (fp : path) (f : file) :
  resolve (<[resolve m fp := Regular f]> m) fp = resolve m fp.
Proof.
  destruct (decide (resolve m fp = fp)) as [Heq|Hne].
  - rewrite Heq. unfold resolve. by rewrite lookup_insert_eq.
  - unfold resolve at 1. by rewrite lookup_insert_ne.
Qed.

Lemma frames_write_text fp content enc : frames fp (write_text encode fp content enc).
Proof.
  intros w o w' H. unfold write_text, store in H. cbv zeta in H.
  assert (forall p f, p <> resolve (fs w) fp ->
                      <[resolve (fs w) fp := Regular f]> (fs w) !! p = fs w !! p) as Hi.
  { intros p f Hp. by rewrite lookup_insert_ne. }
  assert (exists evs, trace w ++ [Write fp enc content] = trace w ++ evs
                      /\ Forall (only_at fp) evs) as Ht.
  { eexists. split; [reflexivity|]. by constructor. }
  destruct (fs w !! resolve (fs w) fp) as [[f|? ?|d| |]|];
    [destruct (writable f)| |destruct (accepts d)| | |];
    try (destruct (fs w !! ancestors (resolve (fs w) fp)) as [[|? []| | |]|]);
    try (destruct (encode enc content));
    injection H as <- <-; cbn [fs trace];
    auto using resolve_insert_target.
Qed.

Lemma frames_try_encodings fp encodings : frames fp (try_encodings decode fp encodings).
Proof.
  induction encodings as [|enc rest IH]; cbn [try_encodings].
  - apply frames_bind; [by apply frames_emit|]. intros _. apply frames_ret.
  - apply frames_try_except.
    + apply frames_bind; [apply frames_read_text|]. intros c. apply frames_ret.
    + intros []; try exact IH;
        (apply frames_bind; [by apply frames_emit|]; intros _; apply frames_ret).
Qed.

Lemma frames_create_header fp root ext : frames fp (create_header fp root ext).
Proof.
  unfold create_header.
  destruct (relative_to fp root); destruct (HEADER_COMMENT_FORMAT !! ext);
    repeat first [ apply frames_ret
                 | apply frames_bind; [by apply frames_emit|]; intros _ ].
Qed.

Lemma frames_relative_to_M fp p root : frames fp (relative_to_M p root).
Proof.
  unfold relative_to_M. destruct (relative_to p root);
    [apply frames_ret | apply frames_raise].
Qed.

Lemma frames_write_file_content fp content enc :
  frames fp (write_file_content encode fp content enc).
Proof.
  unfold write_file_content. apply frames_try_except.
  - apply frames_bind; [apply frames_write_text|]. intros _. apply frames_ret.
  - intros e. apply frames_bind; [by apply frames_emit|]. intros _. apply frames_ret.
Qed.

Lemma frames_process_file fp root : frames fp (process_file decode encode fp root).
Proof.
  unfold process_file.
  destruct (negb (bool_decide (lower (suffix fp) ∈ TARGET_EXTENSIONS)));
    [apply frames_ret|].
  apply frames_bind; [apply frames_try_encodings|].
  intros [[original enc]|]; [|apply frames_ret].
  apply frames_bind; [apply frames_create_header|]. intros header.
  apply frames_bind.
  - destruct header; [apply frames_ret|].
    apply frames_bind; [apply frames_relative_to_M|]. intros rel.
    apply frames_bind; [by apply frames_emit|]. intros _. apply frames_ret.
  - intros final. destruct (bool_decide (final ≠ original)); [|apply frames_ret].
    apply frames_bind; [apply frames_write_file_content|].
    intros [|]; [|apply frames_ret].
    apply frames_bind; [apply frames_relative_to_M|]. intros rel.
    apply frames_bind; [by apply frames_emit|]. intros _. apply frames_ret.
Qed.

(** X10.  Whatever its arguments and however it ends, by returning or by
    raising, a call of [process_file] changes no entry of the file system
    but the one that [file_path] names: the entry at [file_path], or the
    target when [file_path] is a link, which may lie outside of [root_dir].
    It opens no file under another path, and it only adds to the trace. *)
Theorem process_file_changes_only_its_file (file_path root_dir : path)
    (w w' : world) (o : outcome bool) :
  process_file decode encode file_path root_dir w = (o, w') ->
  (forall p, p <> resolve (fs w) file_path -> fs w' !! p = fs w !! p) /\
  exists evs, trace w' = trace w ++ evs /\ Forall (only_at file_path) evs.
Proof.
  intros H. destruct (frames_process_file file_path root_dir w o w' H) as (H1 & _ & H2).
  by split.
Qed.

(** *** The outcome of the transform *)

Lemma write_file_content_unencodable fp content enc w f :
  fs w !! fp = Some (Regular f) -> encode enc content = None ->
  exists w', write_file_content encode fp content enc w = (Ret false, w').
Proof.
  intros Hf Hb.
  unfold write_file_content, try_except, write_text, store, bind, ret, emit.
  cbv zeta. rewrite (resolve_regular _ _ _ Hf), Hf, Hb. destruct (writable f); eauto.
Qed.

Lemma process_file_written fp root rel t w original enc w1 f b :
  relative_to fp root = Some rel ->
  lower (suffix fp) ∈ TARGET_EXTENSIONS ->
  HEADER_COMMENT_FORMAT !! lower (suffix fp) = Some t ->
  read_file_content decode fp w = (Ret (Some (original, enc)), w1) ->
  fs w !! fp = Some (Regular f) ->
  final_content t rel (lower (suffix fp)) original <> original ->
  writable f = true ->
  encode enc (final_content t rel (lower (suffix fp)) original) = Some b ->
  process_file decode encode fp root w
  = (Ret true,
     World (<[fp := Regular (File b (readable f) (writable f))]> (fs w))
       (trace w1
          ++ [Write fp enc (final_content t rel (lower (suffix fp)) original);
              Stdout (if bool_decide (strip (clean_content original (lower (suffix fp)))
                                      ≠ strip original)
                      then RemovedCommentsAndUpdatedHeader (as_posix rel)
                      else UpdatedHeader (as_posix rel))])).
Proof.
  intros Hrel Hext Ht Hread Hf Hne Hw Hb.
  rewrite (process_file_eq decode encode fp root rel t w original enc w1) by assumption.
  cbv zeta. rewrite bool_decide_eq_true_2 by assumption.
  pose proof (TransformClaims.read_file_content_some decode fp w original enc w1 Hread)
    as Hw1.
  unfold bind at 1.
  rewrite (write_file_content_ok fp _ enc w1 f b) by (rewrite ?Hw1; assumption).
  unfold bind, emit, ret. cbn [fs trace]. rewrite Hw1. cbn [fs trace].
  by rewrite <- !app_assoc.
Qed.

Lemma process_file_write_denied fp root rel t w original enc w1 f :
  relative_to fp root = Some rel ->
  lower (suffix fp) ∈ TARGET_EXTENSIONS ->
  HEADER_COMMENT_FORMAT !! lower (suffix fp) = Some t ->
  read_file_content decode fp w = (Ret (Some (original, enc)), w1) ->
  fs w !! fp = Some (Regular f) ->
  final_content t rel (lower (suffix fp)) original <> original ->
  writable f = false ->
  process_file decode encode fp root w
  = (Ret false,
     World (fs w)
       (trace w1
          ++ [Write fp enc (final_content t rel (lower (suffix fp)) original);
              Stderr (ErrorWriting fp)])).
Proof.
  intros Hrel Hext Ht Hread Hf Hne Hw.
  rewrite (process_file_eq decode encode fp root rel t w original enc w1) by assumption.
  cbv zeta. rewrite bool_decide_eq_true_2 by assumption.
  pose proof (TransformClaims.read_file_content_some decode fp w original enc w1 Hread)
    as Hw1.
  unfold bind at 1.
  rewrite (write_file_content_denied fp _ enc w1 f) by (rewrite ?Hw1; assumption).
  unfold ret. by rewrite Hw1.
Qed.

(** X11.  The flag that [process_file] returns tells whether the file was
    written.  For a file below the root that was read as [original] with the
    codec [enc]: when the content arrived at equals [original], nothing is
    written and the flag is [False]; when it differs, the file is opened
    for writing once, with the same codec [enc]; the flag is [True] exactly
    when the file may be written and the codec encodes the new content, and
    then the file holds the encoded content; when the file may not be
    written, the flag is [False] and the file system is as before. *)
Theorem process_file_flag (fp root rel : path) (t : template) (original : str)
    (enc : encoding) (f : file) (w w1 : world) :
  relative_to fp root = Some rel ->
  lower (suffix fp) ∈ TARGET_EXTENSIONS ->
  HEADER_COMMENT_FORMAT !! lower (suffix fp) = Some t ->
  read_file_content decode fp w = (Ret (Some (original, enc)), w1) ->
  fs w !! fp = Some (Regular f) ->
  let final := format t (as_posix rel) ++ [newline]
                 ++ lstrip (clean_content original (lower (suffix fp))) in
  (final = original -> process_file decode encode fp root w = (Ret false, w1)) /\
  (final <> original -> writable f = true ->
   forall b, encode enc final = Some b ->
     exists msg,
       process_file decode encode fp root w
       = (Ret true,
          World (<[fp := Regular (File b (readable f) (writable f))]> (fs w))
            (trace w1 ++ [Write fp enc final; Stdout msg]))) /\
  (final <> original -> writable f = false ->
   process_file decode encode fp root w
   = (Ret false,
      World (fs w) (trace w1 ++ [Write fp enc final; Stderr (ErrorWriting fp)]))) /\
  (forall w', process_file decode encode fp root w = (Ret true, w') ->
     final <> original /\ writable f = true /\ is_Some (encode enc final)).
Proof.
  intros Hrel Hext Ht Hread Hf final.
  change final with (final_content t rel (lower (suffix fp)) original).
  clear final. repeat split.
  - intros Heq.
    rewrite (process_file_eq decode encode fp root rel t w original enc w1)
      by assumption.
    cbv zeta. rewrite bool_decide_eq_false_2; [reflexivity|]. by intros H.
  - intros Hne Hw b Hb. eexists. by eapply process_file_written.
  - intros Hne Hw. by eapply process_file_write_denied.
  - intros Heq.
    rewrite (process_file_eq decode encode fp root rel t w original enc w1) in H
      by assumption.
    cbv zeta in H. rewrite bool_decide_eq_false_2 in H; [discriminate|].
    by intros Hne.
  - destruct (writable f) eqn:Hw; [reflexivity|].
    destruct (decide (final_content t rel (lower (suffix fp)) original = original))
      as [Heq|Hne].
    + rewrite (process_file_eq decode encode fp root rel t w original enc w1) in H
        by assumption.
      cbv zeta in H. rewrite bool_decide_eq_false_2 in H; [discriminate|].
      by intros Hne.
    + rewrite (process_file_write_denied fp root rel t w original enc w1 f) in H
        by assumption.
      discriminate.
  - destruct (encode enc (final_content t rel (lower (suffix fp)) original))
      as [b|] eqn:Hb; [by eexists|].
    exfalso.
    rewrite (process_file_eq decode encode fp root rel t w original enc w1) in H
      by assumption.
    cbv zeta in H.
    destruct (bool_decide (final_content t rel (lower (suffix fp)) original ≠ original));
      [|discriminate].
    pose proof (TransformClaims.read_file_content_some decode fp w original enc w1 Hread)
      as Hw1.
    destruct (write_file_content_unencodable fp
                (final_content t rel (lower (suffix fp)) original) enc w1 f)
      as [w2 E]; [by rewrite Hw1 | exact Hb |].
    unfold bind at 1 in H. rewrite E in H. discriminate.
Qed.

(** X12.  A file that is not below [root_dir] is rewritten all the same:
    [create_header] falls back to the file name, the new content is written
    with that header, and only then does [process_file] raise the
    [ValueError] of [relative_to], when it builds its log line. *)
Theorem process_file_outside_root (fp root : path) (t : template) (original : str)
    (enc : encoding) (f : file) (b : list Byte.byte) (w w1 : world) :
  relative_to fp root = None ->
  lower (suffix fp) ∈ TARGET_EXTENSIONS ->
  HEADER_COMMENT_FORMAT !! lower (suffix fp) = Some t ->
  read_file_content decode fp w = (Ret (Some (original, enc)), w1) ->
  fs w !! fp = Some (Regular f) ->
  writable f = true ->
  let final := format t (name fp ++ py " (relative path error)") ++ [newline]
                 ++ lstrip (clean_content original (lower (suffix fp))) in
  final <> original ->
  encode enc final = Some b ->
  process_file decode encode fp root w
  = (Raise ValueError,
     World (<[fp := Regular (File b (readable f) (writable f))]> (fs w))
       (trace w1 ++ [Stderr (RelativePathError fp root); Write fp enc final])).
Proof.
  intros Hrel Hext Ht Hread Hf Hw final Hne Hb.
  pose proof (TransformClaims.read_file_content_some decode fp w original enc w1 Hread)
    as Hw1.
  unfold process_file.
  rewrite (bool_decide_eq_true_2 _ Hext). cbn [negb].
  unfold bind at 1. rewrite Hread.
  unfold create_header. rewrite Hrel, Ht.
  unfold bind at 1. unfold bind at 1. unfold bind at 1.
  unfold emit at 1. unfold ret at 1. unfold ret at 1.
  fold final. rewrite (bool_decide_eq_true_2 _ Hne).
  unfold bind at 1.
  rewrite (write_file_content_ok fp final enc _ f b)
    by (rewrite ?Hw1; cbn [fs]; assumption).
  unfold bind, relative_to_M, raise. rewrite Hrel. cbn [fs trace].
  rewrite Hw1. cbn [fs trace]. by rewrite <- !app_assoc.
Qed.

Import Re.

(** X13.  A header left from another place is replaced, not kept beside
    the new one.  When the file starts with the header line of an old
    relative path (without the closing delimiter in it), followed by a body
    without comments and without leading white space, the content arrived at
    is the header of the present path, a line break and that body; and when
    the two paths differ, this content is written and the flag is [True]. *)
Theorem stale_header_is_replaced (fp root rel old : path) (t : template)
    (original rest : str) (enc : encoding) (f : file) (b : list Byte.byte)
    (w w1 : world) :
  relative_to fp root = Some rel ->
  lower (suffix fp) ∈ TARGET_EXTENSIONS ->
  HEADER_COMMENT_FORMAT !! lower (suffix fp) = Some t ->
  read_file_content decode fp w = (Ret (Some (original, enc)), w1) ->
  fs w !! fp = Some (Regular f) ->
  original = format t (as_posix old) ++ [newline] ++ rest ->
  (forall p ps, COMMENT_REGEX !! lower (suffix fp) = Some ps -> p ∈ ps ->
                search p rest = false) ->
  lstrip rest = rest ->
  contains (lstrip (after t)) (as_posix old) = false ->
  let final := format t (as_posix rel) ++ [newline] ++ rest in
  as_posix old <> as_posix rel ->
  writable f = true ->
  encode enc final = Some b ->
  exists msg,
    process_file decode encode fp root w
    = (Ret true,
       World (<[fp := Regular (File b (readable f) (writable f))]> (fs w))
         (trace w1 ++ [Write fp enc final; Stdout msg])).
Proof.
  intros Hrel Hext Ht Hread Hf Horig Hrest Hlstrip Hold final Hpaths Hw Hb.
  assert (final_content t rel (lower (suffix fp)) original = final) as Hfinal.
  { unfold final_content, final. rewrite Horig.
    rewrite (TransformClaims.clean_header_line _ t old rest) by assumption.
    change (lstrip (newline :: rest)) with (lstrip rest). by rewrite Hlstrip. }
  eexists. rewrite <- Hfinal.
  eapply process_file_written; eauto; rewrite Hfinal; [|assumption].
  unfold final. rewrite Horig. unfold format. intros E.
  apply app_inv_tail, app_inv_head, app_inv_tail in E. by apply Hpaths.
Qed.

(** X17.  A write that the codec refuses costs the file its content.  When
    the new content cannot be encoded with the codec the file was read
    with, the file has already been opened for writing and so is left
    empty; [process_file] reports the error and returns [False]. *)
Theorem failed_encoding_empties_the_file (fp root rel : path) (t : template)
    (original : str) (enc : encoding) (f : file) (w w1 : world) :
  relative_to fp root = Some rel ->
  lower (suffix fp) ∈ TARGET_EXTENSIONS ->
  HEADER_COMMENT_FORMAT !! lower (suffix fp) = Some t ->
  read_file_content decode fp w = (Ret (Some (original, enc)), w1) ->
  fs w !! fp = Some (Regular f) ->
  writable f = true ->
  let final := format t (as_posix rel) ++ [newline]
                 ++ lstrip (clean_content original (lower (suffix fp))) in
  final <> original ->
  encode enc final = None ->
  process_file decode encode fp root w
  = (Ret false,
     World (<[fp := Regular (File [] (readable f) (writable f))]> (fs w))
       (trace w1 ++ [Write fp enc final; Stderr (ErrorWriting fp)])).
Proof.
  intros Hrel Hext Ht Hread Hf Hw final.
  change final with (final_content t rel (lower (suffix fp)) original).
  clear final. intros Hne Hb.
  rewrite (process_file_eq decode encode fp root rel t w original enc w1) by assumption.
  cbv zeta. rewrite bool_decide_eq_true_2 by assumption.
  pose proof (TransformClaims.read_file_content_some decode fp w original enc w1 Hread)
    as Hw1.
  unfold bind at 1.
  unfold write_file_content, try_except, write_text, store, bind, ret, emit.
  cbv zeta. rewrite Hw1. cbn [fs trace].
  rewrite (resolve_regular _ _ _ Hf), Hf, Hw, Hb. cbn [fs trace].
  by rewrite <- !app_assoc.
Qed.

End IO.
End IOExtras.
(** ** Runs over a tree *)
Module WalkExtras.
Import RunFacts IOExtras.

Section Walk.
Variable decode : encoding -> list Byte.byte -> option str.
Variable encode : encoding -> str -> option (list Byte.byte).


(** X15.  A run of [process_directory] on a resolved path, however it
    ends, changes no entry of the file system but those that the chosen
    entries of the enumeration name: the chosen files themselves and the
    targets of chosen links, which may lie under a skipped directory or
    outside of the root.  No entry appears, disappears or changes its kind;
    and where the enumeration yields no chosen entry the file system is left
    as it was. *)
Theorem process_directory_changes_only_chosen_files (root : path) (w : world) :
  resolve (fs w) root = root ->
  exists o w',
    process_directory decode encode root w = (o, w') /\
    (forall p,
        (forall item, yielded root (fs w) item = true ->
                      chosen root (fs w) item = true ->
                      resolve (fs w) item <> p) ->
        fs w' !! p = fs w !! p) /\
    same_shape (fs w) (fs w') /\
    ((forall item, yielded root (fs w) item = true ->
                   chosen root (fs w) item = false) ->
     fs w' = fs w).
Proof.
  intros _.
  destruct (denied (fs w) root) eqn:Hd.
  { eexists _, _. split; [by apply process_directory_denied|]. cbn [fs].
    split; [done|]. split; [apply same_shape_refl|done]. }
  destruct (process_directory_run decode encode root w Hd)
    as (o & m & evs & E & Hm & _ & _ & Hframe & _).
  eexists _, _. split; [exact E|]. cbn [fs].
  split; [exact Hframe|]. split; [exact Hm|].
  intros Hnone. apply map_eq. intros p. apply Hframe.
  intros item Hy Hc. rewrite (Hnone item Hy) in Hc. discriminate.
Qed.

(** X19.  A file that cannot be read is left alone and is no error of
    the run.  For a regular file below the root, with a target extension and
    no skipped ancestor, that may not be read, the turn of the loop opens
    the file once, prints the error of the read, counts the file as scanned
    and leaves the file system, the counter of changed files and the counter
    of errors as they were. *)
Theorem unreadable_file_is_left_alone (root rel : path) (f : file) (c : counts)
    (w : world) :
  fs w !! (root ++ rel) = Some (Regular f) ->
  readable f = false ->
  existsb skipped_part (ancestors rel) = false ->
  lower (suffix (root ++ rel)) ∈ TARGET_EXTENSIONS ->
  visit decode encode root (root ++ rel) c w
  = (Ret (Counts (S (processed_count c)) (changed_count c) (error_count c)),
     World (fs w)
       (trace w ++ [Read (root ++ rel) utf_8; Stderr (ErrorReading (root ++ rel))])).
Proof.
  intros Hf Hr Hskip Hext. pose proof (stat_regular _ _ _ Hf) as Hs.
  unfold visit, bind, is_dir, is_file, try_except, relative_to_M, ret.
  repeat (cbv beta iota; rewrite ?Hs, ?relative_to_app, ?Hskip).
  cbn [andb]. rewrite (bool_decide_eq_true_2 _ Hext). cbv beta iota.
  unfold process_file. rewrite (bool_decide_eq_true_2 _ Hext). cbn [negb].
  unfold read_file_content, encodings_to_try, try_encodings, try_except, read_text,
    stored_text, bind, emit, ret.
  repeat (cbn [fs trace]; rewrite ?Hs, ?Hr). by rewrite <- !app_assoc.
Qed.

(** *** The effect of one call depends on the file alone *)

Lemma world_eta w : World (fs w) (trace w ++ []) = w.
Proof. rewrite app_nil_r. by destruct w. Qed.

Lemma bump_0 c : bump 0 0 c = c.
Proof. by destruct c. Qed.

Lemma bump_bump n k n' k' c : bump n k (bump n' k' c) = bump (n + n') (k + k') c.
Proof. unfold bump. cbn [processed_count changed_count error_count]. f_equal; lia. Qed.

Lemma bump_eq n k n' k' c : n = n' -> k = k' -> bump n k c = bump n' k' c.
Proof. by intros -> ->. Qed.

Lemma stat_of_target (m : gmap path entry) (fp target : path) (f : file) :
  resolve m fp = target -> m !! target = Some (Regular f) ->
  stat m fp = Some (Regular f).
Proof. intros <- H. unfold stat. by rewrite H. Qed.

Lemma chosen_target (root : path) (m : gmap path entry) (item : path) :
  chosen root m item = true -> exists f, m !! resolve m item = Some (Regular f).
Proof.
  intros H. destruct (chosen_regular _ _ _ H) as [f Hf]. exists f.
  by apply stat_lookup.
Qed.

Lemma read_file_content_effect fp target f :
  exists r revs, forall w,
    resolve (fs w) fp = target ->
    fs w !! target = Some (Regular f) ->
    read_file_content decode fp w = (Ret r, World (fs w) (trace w ++ revs)).
Proof.
  destruct (readable f) eqn:Hr.
  - destruct (decode utf_8 (bytes f)) as [c|] eqn:E8;
      [|destruct (decode latin_1 (bytes f)) as [c|] eqn:E1];
      eexists _, _; intros w Ht Hw;
      pose proof (stat_of_target _ _ _ _ Ht Hw) as Hs;
      unfold read_file_content, encodings_to_try, try_encodings, try_except,
        read_text, stored_text, bind, emit, ret;
      repeat (cbn [fs trace]; rewrite ?Hs, ?Hr, ?E8, ?E1);
      rewrite <- ?app_assoc; reflexivity.
  - eexists _, _; intros w Ht Hw.
    pose proof (stat_of_target _ _ _ _ Ht Hw) as Hs.
    unfold read_file_content, encodings_to_try, try_encodings, try_except,
      read_text, stored_text, bind, emit, ret.
    repeat (cbn [fs trace]; rewrite ?Hs, ?Hr).
    rewrite <- ?app_assoc; reflexivity.
Qed.

Lemma write_file_content_effect fp target content enc f :
  exists b upd evs, forall w,
    resolve (fs w) fp = target ->
    fs w !! target = Some (Regular f) ->
    write_file_content encode fp content enc w
    = (Ret b, World (put target upd (fs w)) (trace w ++ evs)).
Proof.
  destruct (writable f) eqn:Hw.
  - destruct (encode enc content) as [b|] eqn:Hb.
    + exists true, (Some (File b (readable f) (writable f))), [Write fp enc content].
      intros w Ht Hf.
      unfold write_file_content, try_except, write_text, store, bind, ret, emit.
      cbv zeta. by rewrite Ht, Hf, Hw, Hb.
    + exists false, (Some (File [] (readable f) (writable f))),
        [Write fp enc content; Stderr (ErrorWriting fp)].
      intros w Ht Hf.
      unfold write_file_content, try_except, write_text, store, bind, ret, emit.
      cbv zeta. rewrite Ht, Hf, Hw, Hb. cbn [fs trace put].
      by rewrite <- app_assoc.
  - exists false, None, [Write fp enc content; Stderr (ErrorWriting fp)].
    intros w Ht Hf.
    unfold write_file_content, try_except, write_text, store, bind, ret, emit.
    cbv zeta. rewrite Ht, Hf, Hw. cbn [fs trace put]. by rewrite <- app_assoc.
Qed.

Lemma process_file_effect fp target root rel f :
  relative_to fp root = Some rel ->
  lower (suffix fp) ∈ TARGET_EXTENSIONS ->
  exists b upd evs, forall w,
    resolve (fs w) fp = target ->
    fs w !! target = Some (Regular f) ->
    process_file decode encode fp root w
    = (Ret b, World (put target upd (fs w)) (trace w ++ evs)).
Proof.
  intros Hrel Hext.
  destruct (header_format_registered _ Hext) as (t & Ht & _).
  destruct (read_file_content_effect fp target f) as (r & revs & Hread).
  destruct r as [[original enc]|].
  2:{ exists false, None, revs. intros w Hres Hw. unfold process_file.
      rewrite (bool_decide_eq_true_2 _ Hext). cbn [negb].
      unfold bind. by rewrite (Hread w Hres Hw). }
  destruct (decide (final_content t rel (lower (suffix fp)) original = original))
    as [Heq|Hne].
  { exists false, None, revs. intros w Hres Hw.
    rewrite (process_file_eq decode encode fp root rel t w original enc _
               Hrel Hext Ht (Hread w Hres Hw)).
    cbv zeta. rewrite bool_decide_eq_false_2; [reflexivity|]. by intros H. }
  destruct (write_file_content_effect fp target
              (final_content t rel (lower (suffix fp)) original) enc f)
    as (b & upd & wevs & Hwrite).
  destruct b.
  - eexists true, upd, (revs ++ wevs ++ [_]). intros w Hres Hw.
    rewrite (process_file_eq decode encode fp root rel t w original enc _
               Hrel Hext Ht (Hread w Hres Hw)).
    cbv zeta. rewrite (bool_decide_eq_true_2 _ Hne).
    unfold bind at 1. rewrite Hwrite by assumption.
    unfold bind, emit, ret. cbn [fs trace]. by rewrite <- !app_assoc.
  - exists false, upd, (revs ++ wevs). intros w Hres Hw.
    rewrite (process_file_eq decode encode fp root rel t w original enc _
               Hrel Hext Ht (Hread w Hres Hw)).
    cbv zeta. rewrite (bool_decide_eq_true_2 _ Hne).
    unfold bind at 1. rewrite Hwrite by assumption.
    unfold ret. cbn [fs trace]. by rewrite <- !app_assoc.
Qed.

(** One turn of the loop: what it does to the counters and to the file
    system is fixed by the kinds of the entries and, for a chosen entry, by
    the file that it names. *)
Lemma visit_effect root item (w0 : world) :
  below root item = true ->
  denied (fs w0) item = false ->
  exists n k upd evs,
    n = (if chosen root (fs w0) item then 1 else 0)%nat /\
    (k <= n)%nat /\
    (chosen root (fs w0) item = false -> upd = None) /\
    forall c w,
      same_shape (fs w0) (fs w) ->
      (chosen root (fs w0) item = true ->
       fs w !! resolve (fs w0) item = fs w0 !! resolve (fs w0) item) ->
      visit decode encode root item c w
      = (Ret (bump n k c),
         World (put (resolve (fs w0) item) upd (fs w)) (trace w ++ evs)).
Proof.
  intros Hbelow Hden. destruct (chosen root (fs w0) item) eqn:Hch.
  - destruct (chosen_target _ _ _ Hch) as [f Hf].
    assert (exists rel, relative_to item root = Some rel) as [rel Hrel].
    { unfold chosen in Hch. destruct (relative_to item root); [eauto|discriminate]. }
    assert (lower (suffix item) ∈ TARGET_EXTENSIONS) as Hext.
    { unfold chosen in Hch. rewrite Hrel in Hch.
      apply andb_true_iff in Hch as [_ Hch]. by apply bool_decide_eq_true in Hch. }
    destruct (process_file_effect item (resolve (fs w0) item) root rel f Hrel Hext)
      as (b & upd & evs & Hpf).
    exists 1%nat, (if b then 1 else 0)%nat, upd, evs.
    split; [reflexivity|]. split; [destruct b; lia|]. split; [discriminate|].
    intros c w Hshape Hw. specialize (Hw eq_refl). rewrite Hf in Hw.
    assert (chosen root (fs w) item = true) as Hch'.
    { by rewrite (chosen_same_shape root (fs w0) (fs w) item Hshape). }
    destruct (visit_chosen decode encode root item c w Hch')
      as (b' & m & evs' & E1 & E2 & _).
    rewrite (Hpf w (same_shape_resolve _ _ _ Hshape) Hw) in E1.
    injection E1 as <- <- Ht.
    rewrite E2, <- Ht. by destruct b.
  - exists O, O, None, []. split; [reflexivity|]. split; [lia|]. split; [done|].
    intros c w Hshape _. rewrite visit_not_chosen; auto.
    + cbn [put]. by rewrite bump_0, world_eta.
    + by rewrite (chosen_same_shape root (fs w0) (fs w) item Hshape).
    + by rewrite (same_shape_denied (fs w0) (fs w) item Hshape).
Qed.

Lemma lookup_put_ne (fp : path) (upd : option file) (m : gmap path entry) (p : path) :
  upd = None \/ p <> fp -> put fp upd m !! p = m !! p.
Proof.
  intros [->|H]; [reflexivity|]. destruct upd; [by apply lookup_insert_ne | done].
Qed.

Lemma put_comm (x y : path) (ux uy : option file) (m : gmap path entry) :
  ux = None \/ uy = None \/ x <> y ->
  put x ux (put y uy m) = put y uy (put x ux m).
Proof.
  intros [->|[->|H]]; try reflexivity.
  destruct ux, uy; cbn [put]; try done. by apply insert_insert_ne.
Qed.

Lemma put_same_shape (m : gmap path entry) (target : path) (upd : option file) :
  (upd <> None -> exists f, m !! target = Some (Regular f)) ->
  same_shape m (put target upd m).
Proof.
  destruct upd as [f'|]; [|intros _; apply same_shape_refl].
  intros H. destruct H as [f Hf]; [done|]. by apply (same_shape_insert _ _ f).
Qed.

(** *** The order of the loop *)

Lemma orderly_same_shape root m m' items :
  same_shape m m' -> orderly root m items -> orderly root m' items.
Proof.
  intros H (Hnd & Hb & Ha). split; [exact Hnd|]. split.
  - intros item Hin. destruct (Hb item Hin) as [? ?]. split; [done|].
    by rewrite (same_shape_denied m m' item H).
  - intros x y Hx Hy. rewrite !(chosen_same_shape root m m' _ H).
    rewrite !(same_shape_resolve m m' _ H). by apply Ha.
Qed.

Lemma orderly_tail root m x items : orderly root m (x :: items) -> orderly root m items.
Proof.
  intros (Hnd & Hb & Ha). apply NoDup_cons in Hnd as [_ Hnd].
  split; [exact Hnd|]. split.
  - intros item Hin. apply Hb. by right.
  - intros a b Hin Hin'. apply Ha; by right.
Qed.

Lemma orderly_perm root m items items' :
  items ≡ₚ items' -> orderly root m items -> orderly root m items'.
Proof.
  intros Hp (Hnd & Hb & Ha). split; [by rewrite <- Hp|]. split.
  - intros item Hin. apply Hb. by rewrite Hp.
  - intros x y Hx Hy. apply Ha; by rewrite Hp.
Qed.

(** The step that all the inductions below take: one turn of the loop
    from two worlds with the same file system. *)
Lemma visit_twice root x items (w1 w2 : world) :
  fs w1 = fs w2 ->
  orderly root (fs w1) (x :: items) ->
  exists n k upd evs,
    (upd <> None -> chosen root (fs w1) x = true) /\
    orderly root (put (resolve (fs w1) x) upd (fs w1)) items /\
    same_shape (fs w1) (put (resolve (fs w1) x) upd (fs w1)) /\
    forall c,
      visit decode encode root x c w1
      = (Ret (bump n k c),
         World (put (resolve (fs w1) x) upd (fs w1)) (trace w1 ++ evs)) /\
      visit decode encode root x c w2
      = (Ret (bump n k c),
         World (put (resolve (fs w1) x) upd (fs w1)) (trace w2 ++ evs)).
Proof.
  intros Hfs Ho. pose proof Ho as (_ & Hb & _).
  destruct (Hb x) as [Hbelow Hden]; [by left|].
  destruct (visit_effect root x w1 Hbelow Hden) as (n & k & upd & evs & _ & _ & Hupd & Hv).
  exists n, k, upd, evs.
  assert (upd <> None -> chosen root (fs w1) x = true) as Hc.
  { intros Hne. destruct (chosen root (fs w1) x); [reflexivity|].
    by destruct Hne; apply Hupd. }
  assert (same_shape (fs w1) (put (resolve (fs w1) x) upd (fs w1))) as Hshape.
  { apply put_same_shape. intros Hne. by apply (chosen_target root), Hc. }
  split; [exact Hc|]. split.
  { eapply orderly_same_shape; [exact Hshape|]. by eapply orderly_tail. }
  split; [exact Hshape|].
  intros c. split.
  - by apply Hv; [apply same_shape_refl|].
  - rewrite (Hv c w2); [by rewrite <- Hfs| |]; by rewrite <- Hfs.
Qed.

(** The loop over one list, from two worlds with the same file system. *)
Lemma visit_all_fs root items :
  forall c w1 w2,
    fs w1 = fs w2 ->
    orderly root (fs w1) items ->
    exists c' m evs,
      visit_all decode encode root items c w1 = (Ret c', World m (trace w1 ++ evs)) /\
      visit_all decode encode root items c w2 = (Ret c', World m (trace w2 ++ evs)).
Proof.
  induction items as [|i items IH]; intros c w1 w2 Hfs Ho.
  - exists c, (fs w1), []. cbn [visit_all]. unfold ret.
    split; [by rewrite world_eta|]. by rewrite Hfs, world_eta.
  - destruct (visit_twice root i items w1 w2 Hfs Ho)
      as (n & k & upd & evs & _ & Ho' & _ & Hv).
    destruct (Hv c) as [E1 E2].
    destruct (IH (bump n k c)
                (World (put (resolve (fs w1) i) upd (fs w1)) (trace w1 ++ evs))
                (World (put (resolve (fs w1) i) upd (fs w1)) (trace w2 ++ evs))
                eq_refl Ho')
      as (c' & m & evs1 & F1 & F2).
    cbn [trace] in F1, F2.
    exists c', m, (evs ++ evs1). cbn [visit_all]. unfold bind.
    by rewrite E1, E2, F1, F2, <- !app_assoc.
Qed.

Lemma visit_all_perm root items items' :
  items ≡ₚ items' ->
  forall c w1 w2,
    fs w1 = fs w2 ->
    orderly root (fs w1) items ->
    exists c' m evs evs',
      visit_all decode encode root items c w1 = (Ret c', World m (trace w1 ++ evs)) /\
      visit_all decode encode root items' c w2 = (Ret c', World m (trace w2 ++ evs')) /\
      evs ≡ₚ evs'.
Proof.
  induction 1 as [|x l l' Hp IH|x y l|l l' l'' Hp1 IH1 Hp2 IH2];
    intros c w1 w2 Hfs Ho.
  - exists c, (fs w1), [], []. cbn [visit_all]. unfold ret.
    split; [by rewrite world_eta|]. split; [|done]. by rewrite Hfs, world_eta.
  - destruct (visit_twice root x l w1 w2 Hfs Ho)
      as (n & k & upd & evs & _ & Ho' & _ & Hv).
    destruct (Hv c) as [E1 E2].
    destruct (IH (bump n k c)
                (World (put (resolve (fs w1) x) upd (fs w1)) (trace w1 ++ evs))
                (World (put (resolve (fs w1) x) upd (fs w1)) (trace w2 ++ evs))
                eq_refl Ho')
      as (c' & m & evs1 & evs2 & F1 & F2 & He).
    cbn [trace] in F1, F2.
    exists c', m, (evs ++ evs1), (evs ++ evs2). cbn [visit_all]. unfold bind.
    rewrite E1, E2, F1, F2, <- !app_assoc.
    split; [reflexivity|]. split; [reflexivity|]. by apply Permutation_app_head.
  - (* [y :: x :: l] against [x :: y :: l] *)
    pose proof Ho as (Hnd & Hb & Ha).
    assert (x <> y) as Hxy.
    { apply NoDup_cons in Hnd as [Hnin _]. intros ->. apply Hnin. by left. }
    destruct (Hb y) as [Hby Hdy]; [by left|].
    destruct (Hb x) as [Hbx Hdx]; [by right; left|].
    destruct (visit_effect root y w1 Hby Hdy) as (ny & ky & uy & ey & _ & _ & Huy & Hvy).
    destruct (visit_effect root x w1 Hbx Hdx) as (nx & kx & ux & ex & _ & _ & Hux & Hvx).
    set (tx := resolve (fs w1) x) in *. set (ty := resolve (fs w1) y) in *.
    assert (chosen root (fs w1) x = true -> chosen root (fs w1) y = true -> tx <> ty)
      as Hapart.
    { intros Hcx Hcy Ht. apply Hxy.
      apply Ha; [by right; left | by left | done | done | done]. }
    assert (chosen root (fs w1) x = true -> uy = None \/ tx <> ty) as Hxy'.
    { intros Hcx. destruct (chosen root (fs w1) y) eqn:Ey;
        [right; by apply Hapart | left; by apply Huy]. }
    assert (chosen root (fs w1) y = true -> ux = None \/ ty <> tx) as Hyx'.
    { intros Hcy. destruct (chosen root (fs w1) x) eqn:Ex;
        [right; intros Ht; by apply (Hapart eq_refl Hcy) | left; by apply Hux]. }
    assert (same_shape (fs w1) (put ty uy (fs w1))) as Hsy.
    { apply put_same_shape. intros Hne. apply (chosen_target root).
      destruct (chosen root (fs w1) y); [reflexivity|]. by destruct Hne; apply Huy. }
    assert (same_shape (fs w1) (put tx ux (fs w1))) as Hsx.
    { apply put_same_shape. intros Hne. apply (chosen_target root).
      destruct (chosen root (fs w1) x); [reflexivity|]. by destruct Hne; apply Hux. }
    assert (put tx ux (put ty uy (fs w1)) = put ty uy (put tx ux (fs w1))) as Hcomm.
    { apply put_comm.
      destruct (chosen root (fs w1) x) eqn:Ex; [|left; by apply Hux].
      destruct (Hxy' eq_refl) as [?|?]; [by right; left | by right; right]. }
    assert (visit_all decode encode root (y :: x :: l) c w1
            = visit_all decode encode root l (bump (nx + ny) (kx + ky) c)
                (World (put tx ux (put ty uy (fs w1))) (trace w1 ++ ey ++ ex))) as E1.
    { cbn [visit_all]. unfold bind.
      rewrite (Hvy c w1 (same_shape_refl _) (fun _ => eq_refl)).
      rewrite (Hvx _ (World (put ty uy (fs w1)) (trace w1 ++ ey))); cbn [fs trace].
      - by rewrite bump_bump, <- app_assoc.
      - exact Hsy.
      - intros Hcx. apply lookup_put_ne. by apply Hxy'. }
    assert (visit_all decode encode root (x :: y :: l) c w2
            = visit_all decode encode root l (bump (nx + ny) (kx + ky) c)
                (World (put tx ux (put ty uy (fs w1))) (trace w2 ++ ex ++ ey))) as E2.
    { cbn [visit_all]. unfold bind.
      rewrite (Hvx c w2);
        [|by rewrite <- Hfs; apply same_shape_refl | by rewrite <- Hfs].
      rewrite (Hvy _ (World (put tx ux (fs w2)) (trace w2 ++ ex))); cbn [fs trace].
      - rewrite bump_bump, <- Hfs, <- Hcomm, <- app_assoc.
        by rewrite (bump_eq (ny + nx) (ky + kx) (nx + ny) (kx + ky)) by lia.
      - by rewrite <- Hfs.
      - intros Hcy. rewrite <- Hfs. apply lookup_put_ne. by apply Hyx'. }
    destruct (visit_all_fs root l (bump (nx + ny) (kx + ky) c)
                (World (put tx ux (put ty uy (fs w1))) (trace w1 ++ ey ++ ex))
                (World (put tx ux (put ty uy (fs w1))) (trace w2 ++ ex ++ ey))
                eq_refl)
      as (c' & m & evs & F1 & F2).
    { cbn [fs]. eapply orderly_same_shape; [|by eapply orderly_tail, orderly_tail].
      eapply same_shape_trans; [exact Hsy|]. apply put_same_shape. intros Hne.
      assert (chosen root (fs w1) x = true) as Hcx.
      { destruct (chosen root (fs w1) x); [reflexivity|]. by destruct Hne; apply Hux. }
      destruct (chosen_target root (put ty uy (fs w1)) x) as [f Hf].
      { by rewrite (chosen_same_shape root (fs w1) _ x Hsy). }
      rewrite (same_shape_resolve (fs w1) _ x Hsy) in Hf. eauto. }
    cbn [trace] in F1, F2.
    exists c', m, (ey ++ ex ++ evs), (ex ++ ey ++ evs).
    rewrite E1, E2, F1, F2, <- !app_assoc.
    split; [reflexivity|]. split; [reflexivity|]. apply Permutation_app_swap_app.
  - assert (orderly root (fs w2) l') as Ho'.
    { rewrite <- Hfs. by eapply orderly_perm. }
    destruct (IH1 c w1 w2 Hfs Ho) as (c1 & m1 & e1 & e1' & E1 & E1' & He1).
    destruct (IH2 c w2 w2 eq_refl Ho') as (c2 & m2 & e2 & e2' & E2 & E2' & He2).
    rewrite E1' in E2. injection E2 as -> -> E2. apply app_inv_head in E2 as ->.
    exists c2, m2, e1, e2'. split; [done|]. split; [done|].
    by eapply Permutation_trans.
Qed.

(** X16.  The order in which the loop of [process_directory] meets the
    entries does not matter, as long as no two chosen entries are names of
    the same file.  For two enumerations with the same entries, none twice,
    all below the root and none for which [stat] raises, the loop ends with
    the same counters and the same file system, and the events of the two
    runs are the same up to their order. *)
Theorem visit_order_is_irrelevant (root : path) (items items' : list path)
    (c : counts) (w : world) :
  items ≡ₚ items' ->
  NoDup items ->
  (forall item, item ∈ items -> below root item = true /\ denied (fs w) item = false) ->
  (forall x y, x ∈ items -> y ∈ items ->
               chosen root (fs w) x = true -> chosen root (fs w) y = true ->
               resolve (fs w) x = resolve (fs w) y -> x = y) ->
  exists c' m evs evs',
    visit_all decode encode root items c w = (Ret c', World m (trace w ++ evs)) /\
    visit_all decode encode root items' c w = (Ret c', World m (trace w ++ evs')) /\
    evs ≡ₚ evs'.
Proof.
  intros Hp Hnd Hb Ha. by apply visit_all_perm.
Qed.

End Walk.
End WalkExtras.

(** ** The reader under the codecs of the interpreter *)
Module CodecExtras.
Import RunFacts.

Lemma latin_1_decodes_everything (b : list Byte.byte) :
  is_Some (Codec.decode latin_1 b).
Proof. unfold Codec.decode. simpl. eauto. Qed.

(** X18.  Under the codecs of CPython no file fails both attempts of
    [read_file_content]: latin-1 decodes every sequence of bytes.  Where the
    path names a readable regular file, the reader returns a text, the one
    of the codec it names, and it names latin-1 only where UTF-8 has
    failed; the line that no codec could decode the file is never
    printed. *)
Theorem readable_file_always_decodes (fp : path) (f : file) (w : world) :
  stat (fs w) fp = Some (Regular f) ->
  readable f = true ->
  exists c enc,
    read_file_content Codec.decode fp w
    = (Ret (Some (c, enc)),
       World (fs w)
         (trace w ++ match enc with
                     | utf_8 => [Read fp utf_8]
                     | latin_1 => [Read fp utf_8; Read fp latin_1]
                     end)) /\
    Codec.decode enc (bytes f) = Some c /\
    (enc = latin_1 -> Codec.decode utf_8 (bytes f) = None).
Proof.
  intros Hs Hr.
  unfold read_file_content, encodings_to_try, try_encodings, try_except, read_text,
    stored_text, bind, emit, ret. cbn [fs trace].
  destruct (Codec.decode utf_8 (bytes f)) as [c|] eqn:E8.
  - exists c, utf_8. rewrite Hs, Hr, E8. split; [reflexivity|]. split; [reflexivity|].
    discriminate.
  - destruct (latin_1_decodes_everything (bytes f)) as [c E1].
    exists c, latin_1.
    repeat (cbn [fs trace]; rewrite ?Hs, ?Hr, ?E8, ?E1).
    rewrite <- !app_assoc. split; [reflexivity|]. by split.
Qed.

End CodecExtras.
(** ** The properties above at concrete trees *)
Module ExtraWitnesses.
Import Site Samples RunFacts.

Ltac compute_in_list := apply (bool_decide_unpack _); vm_compute; exact I.


Lemma read_file_content_first_codec_wins_witness :
  read_file_content Codec.decode (site ++ [py "src"; py "app.Js"]) w_site
  = (Ret (Some (py "foo(); // comment", utf_8)),
     World (fs w_site) [Read (site ++ [py "src"; py "app.Js"]) utf_8]) /\
  read_file_content Codec.decode (site ++ [py "null.js"]) w_null
  = (Ret (Some ([], utf_8)),
     World (fs w_null) [Read (site ++ [py "null.js"]) utf_8]) /\
  read_file_content Codec.decode (site ++ [py "locked.css"]) w_site
  = (Ret None,
     World (fs w_site)
       [Read (site ++ [py "locked.css"]) utf_8;
        Stderr (ErrorReading (site ++ [py "locked.css"]))]).
Proof.
  split; [|split].
  - pose proof (IOExtras.read_file_content_first_codec_wins Codec.decode
                  (site ++ [py "src"; py "app.Js"]) w_site) as H.
    cbv zeta in H. destruct H as (H & _ & _).
    rewrite (H (File (omap Byte.of_N (py "foo(); // comment")) true true))
      by reflexivity.
    reflexivity.
  - pose proof (IOExtras.read_file_content_first_codec_wins Codec.decode
                  (site ++ [py "null.js"]) w_null) as H.
    cbv zeta in H. destruct H as (_ & H & _).
    rewrite (H (Device (Some []) true) []) by reflexivity.
    reflexivity.
  - pose proof (IOExtras.read_file_content_first_codec_wins Codec.decode
                  (site ++ [py "locked.css"]) w_site) as H.
    cbv zeta in H. destruct H as (_ & _ & H).
    apply H. reflexivity.
Defined.

Lemma write_file_content_result_witness :
  write_file_content Codec.encode (site ++ [py "a.js"]) (py "x") utf_8 w_read_only
  = (Ret false,
     World (fs w_read_only)
       [Write (site ++ [py "a.js"]) utf_8 (py "x");
        Stderr (ErrorWriting (site ++ [py "a.js"]))]).
Proof.
  destruct (IOExtras.write_file_content_result Codec.decode Codec.encode
              (site ++ [py "a.js"]) (py "x") utf_8 w_read_only) as (_ & H & _).
  apply (H (File (omap Byte.of_N (py "foo(); // note")) true false)); reflexivity.
Defined.

(** The link [link.js] names a file outside of the root: that file is
    rewritten, and nothing else is. *)
Lemma process_file_changes_only_its_file_witness :
  let fp := site ++ [py "link.js"] in
  let w' := snd (run_process_file fp site w_link) in
  resolve (fs w_link) fp = [py "outside.txt"] /\
  fs w' !! [py "outside.txt"]
  = Some (stored (py "/* link.js */" ++ [newline] ++ py "out")) /\
  (forall p, p <> [py "outside.txt"] -> fs w' !! p = fs w_link !! p) /\
  exists evs, trace w' = trace w_link ++ evs /\ Forall (only_at fp) evs.
Proof.
  intros fp w'.
  split; [reflexivity|]. split; [vm_compute; reflexivity|].
  apply (IOExtras.process_file_changes_only_its_file Codec.decode Codec.encode
           fp site w_link w' (fst (run_process_file fp site w_link))).
  apply surjective_pairing.
Defined.

Lemma process_file_flag_witness :
  let fp := site ++ [py "a.js"] in
  run_process_file fp site w_clean = (Ret false, World (fs w_clean) [Read fp utf_8]) /\
  run_process_file fp site w_read_only
  = (Ret false,
     World (fs w_read_only)
       [Read fp utf_8;
        Write fp utf_8 (py "/* a.js */" ++ [newline] ++ py "foo(); ");
        Stderr (ErrorWriting fp)]).
Proof.
  intros fp. split.
  - destruct (IOExtras.process_file_flag Codec.decode Codec.encode fp site [py "a.js"]
                (Template (py "/* ") (py " */"))
                (py "/* a.js */" ++ [newline] ++ py "foo();" ++ [newline]) utf_8
                (File (omap Byte.of_N
                         (py "/* a.js */" ++ [newline] ++ py "foo();" ++ [newline]))
                   true true)
                w_clean (World (fs w_clean) [Read fp utf_8])) as (H & _).
    + reflexivity.
    + compute_in_list.
    + reflexivity.
    + reflexivity.
    + reflexivity.
    + apply H. reflexivity.
  - destruct (IOExtras.process_file_flag Codec.decode Codec.encode fp site [py "a.js"]
                (Template (py "/* ") (py " */")) (py "foo(); // note") utf_8
                (File (omap Byte.of_N (py "foo(); // note")) true false)
                w_read_only (World (fs w_read_only) [Read fp utf_8]))
      as (_ & _ & H & _).
    + reflexivity.
    + compute_in_list.
    + reflexivity.
    + reflexivity.
    + reflexivity.
    + unfold run_process_file.
      rewrite H; [reflexivity | compute_in_list | reflexivity].
Defined.

Lemma process_file_outside_root_witness :
  let fp := site ++ [py "a.js"] in
  let final := py "/* a.js (relative path error) */" ++ [newline]
                 ++ py "foo();" ++ [newline] in
  exists m,
    run_process_file fp [py "elsewhere"] w_clean
    = (Raise ValueError,
       World m [Read fp utf_8; Stderr (RelativePathError fp [py "elsewhere"]);
                Write fp utf_8 final]) /\
    m !! fp = Some (stored final).
Proof.
  intros fp final. eexists. split.
  - unfold run_process_file.
    rewrite (IOExtras.process_file_outside_root Codec.decode Codec.encode
             fp [py "elsewhere"] (Template (py "/* ") (py " */"))
             (py "/* a.js */" ++ [newline] ++ py "foo();" ++ [newline]) utf_8
             (File (omap Byte.of_N
                      (py "/* a.js */" ++ [newline] ++ py "foo();" ++ [newline]))
                true true)
             (omap Byte.of_N final)
             w_clean (World (fs w_clean) [Read fp utf_8])).
    + reflexivity.
    + reflexivity.
    + compute_in_list.
    + reflexivity.
    + reflexivity.
    + reflexivity.
    + reflexivity.
    + compute_in_list.
    + reflexivity.
  - by rewrite lookup_insert_eq.
Defined.

Lemma stale_header_is_replaced_witness :
  let fp := site ++ [py "lib"; py "a.js"] in
  let final := py "/* lib/a.js */" ++ [newline] ++ py "foo();" ++ [newline] in
  exists msg,
    run_process_file fp site w_moved
    = (Ret true,
       World (<[fp := stored final]> (fs w_moved))
         [Read fp utf_8; Write fp utf_8 final; Stdout msg]).
Proof.
  intros fp final.
  destruct (IOExtras.stale_header_is_replaced Codec.decode Codec.encode
           fp site [py "lib"; py "a.js"] [py "a.js"] (Template (py "/* ") (py " */"))
           (py "/* a.js */" ++ [newline] ++ py "foo();" ++ [newline])
           (py "foo();" ++ [newline]) utf_8
           (File (omap Byte.of_N
                    (py "/* a.js */" ++ [newline] ++ py "foo();" ++ [newline]))
              true true)
           (omap Byte.of_N final)
           w_moved (World (fs w_moved) [Read fp utf_8])) as [msg E].
  - reflexivity.
  - compute_in_list.
  - reflexivity.
  - reflexivity.
  - reflexivity.
  - reflexivity.
  - intros p ps Hps Hp. vm_compute in Hps. injection Hps as <-.
    repeat (apply elem_of_cons in Hp as [->|Hp]; [reflexivity|]).
    by apply elem_of_nil in Hp.
  - reflexivity.
  - reflexivity.
  - compute_in_list.
  - reflexivity.
  - reflexivity.
  - exists msg. unfold run_process_file. rewrite E. reflexivity.
Defined.

Lemma failed_encoding_empties_the_file_witness :
  let fp := site ++ [257%N :: py ".js"] in
  run_process_file fp site w_latin
  = (Ret false,
     World (<[fp := Regular (File [] true true)]> (fs w_latin))
       [Read fp utf_8; Read fp latin_1;
        Write fp latin_1 (py "/* " ++ [257%N] ++ py ".js */" ++ [newline; 233%N]);
        Stderr (ErrorWriting fp)]).
Proof.
  intros fp. unfold run_process_file.
  rewrite (IOExtras.failed_encoding_empties_the_file Codec.decode Codec.encode
           fp site [257%N :: py ".js"] (Template (py "/* ") (py " */"))
           [233%N] latin_1 (File [Byte.xe9] true true)
           w_latin (World (fs w_latin) [Read fp utf_8; Read fp latin_1])).
  - reflexivity.
  - reflexivity.
  - compute_in_list.
  - reflexivity.
  - reflexivity.
  - reflexivity.
  - reflexivity.
  - compute_in_list.
  - reflexivity.
Defined.


Lemma process_directory_changes_only_chosen_files_witness :
  exists o w',
    run_process_directory site w_plain = (o, w') /\ fs w' = fs w_plain.
Proof.
  destruct (WalkExtras.process_directory_changes_only_chosen_files
              Codec.decode Codec.encode site w_plain) as (o & w' & E & _ & _ & H);
    [reflexivity|].
  exists o, w'. split; [exact E|]. apply H.
  intros item _. destruct (chosen site (fs w_plain) item) eqn:Hch; [|reflexivity].
  destruct (chosen_regular _ _ _ Hch) as [f Hf].
  assert (is_Some (fs w_plain !! item)) as [e He].
  { apply stat_is_Some. rewrite Hf. eauto. }
  unfold w_plain in He. cbn [fs] in He.
  repeat (apply lookup_insert_Some in He as [[<- _]|[_ He]];
          [vm_compute in Hch; discriminate Hch|]).
  by rewrite lookup_empty in He.
Defined.

Lemma visit_order_is_irrelevant_witness :
  let a := site ++ [py "a.js"] in
  let b := site ++ [py "b.js"] in
  exists c m evs evs',
    visit_all Codec.decode Codec.encode site [a; b] (Counts 0 0 0) w_pair
    = (Ret c, World m (trace w_pair ++ evs)) /\
    visit_all Codec.decode Codec.encode site [b; a] (Counts 0 0 0) w_pair
    = (Ret c, World m (trace w_pair ++ evs')) /\
    evs ≡ₚ evs'.
Proof.
  intros a b.
  apply (WalkExtras.visit_order_is_irrelevant Codec.decode Codec.encode site
           [a; b] [b; a] (Counts 0 0 0) w_pair).
  - apply perm_swap.
  - apply NoDup_cons. split; [|apply NoDup_singleton].
    intros H. apply list_elem_of_singleton in H. discriminate H.
  - intros item H.
    repeat (apply elem_of_cons in H as [->|H]; [split; reflexivity|]).
    by apply elem_of_nil in H.
  - intros x y Hx Hy _ _.
    repeat (apply elem_of_cons in Hx as [->|Hx]);
      repeat (apply elem_of_cons in Hy as [->|Hy]);
      try (by apply elem_of_nil in Hx); try (by apply elem_of_nil in Hy);
      try reflexivity; intros H; vm_compute in H; discriminate H.
Defined.

(** Where two chosen entries are names of the same file, the order does
    matter: the header of the name that is visited last stays. *)
Lemma two_names_of_one_file :
  let a := site ++ [py "a.js"] in
  let b := site ++ [py "b.js"] in
  resolve (fs w_alias) b = a /\
  fs (snd (visit_all Codec.decode Codec.encode site [a; b] (Counts 0 0 0) w_alias))
    !! a
  = Some (stored (py "/* b.js */" ++ [newline] ++ py "x();")) /\
  fs (snd (visit_all Codec.decode Codec.encode site [b; a] (Counts 0 0 0) w_alias))
    !! a
  = Some (stored (py "/* a.js */" ++ [newline] ++ py "x();")).
Proof. vm_compute. repeat split. Qed.

(** The script [bad.js] holds the byte 0xFF, which is no UTF-8: it is read
    as latin-1. *)
Lemma readable_file_always_decodes_witness :
  exists c enc,
    read_file_content Codec.decode (site ++ [py "bad.js"]) w_bad
    = (Ret (Some (c, enc)),
       World (fs w_bad)
         (trace w_bad ++ match enc with
                         | utf_8 => [Read (site ++ [py "bad.js"]) utf_8]
                         | latin_1 => [Read (site ++ [py "bad.js"]) utf_8;
                                       Read (site ++ [py "bad.js"]) latin_1]
                         end)) /\
    Codec.decode enc [Byte.xff] = Some c /\
    (enc = latin_1 -> Codec.decode utf_8 [Byte.xff] = None).
Proof.
  apply (CodecExtras.readable_file_always_decodes (site ++ [py "bad.js"])
           (File [Byte.xff] true true) w_bad); reflexivity.
Defined.

Lemma unreadable_file_is_left_alone_witness :
  visit Codec.decode Codec.encode site (site ++ [py "locked.css"]) (Counts 0 0 0) w_site
  = (Ret (Counts 1 0 0),
     World (fs w_site)
       [Read (site ++ [py "locked.css"]) utf_8;
        Stderr (ErrorReading (site ++ [py "locked.css"]))]).
Proof.
  apply (WalkExtras.unreadable_file_is_left_alone Codec.decode Codec.encode site
           [py "locked.css"] (File (omap Byte.of_N (py "a { }")) false true)
           (Counts 0 0 0) w_site).
  - reflexivity.
  - reflexivity.
  - reflexivity.
  - compute_in_list.
Defined.

End ExtraWitnesses.
